(** * products/models.py: the catalogue's validation and traversal rules

    A shallow embedding of [src/products/models.py] (categories arranged in
    a tree, characteristics, products and product attributes) together with
    the properties of its validation ([clean]), persistence ([save]) and
    tree-walking methods.

    Conventions of the embedding.
    - A database table is the list of its rows; a query set is a list of
      rows, and [filter]/[exclude]/[exists] are list operations.
    - A model instance is a record.  Its primary key is [None] until the
      instance has been saved.  A foreign key holds the key of the related
      row; reading the related object ([self.parent], [self.category],
      [attribute.characteristic]) is a fetch from the table which raises
      [DoesNotExist] when no row has that key.
    - Django compares (and hashes) model instances by primary key, so
      [==], [in] and [set] operations on instances compare keys.
    - Methods that can raise return a [result]; methods that assign to
      [self] return the updated instance next to their outcome, so that
      what an exception leaves behind is visible.
    - The generators [get_ancestors] and [get_descendants] are recursive on
      the stored tree, not on a structure: they take a recursion budget
      [fuel], and [OutOfFuel] stands for a walk that has not finished within
      it.  The sequence a generator yields is the list of its elements, in
      the order they are yielded. *)

From Stdlib Require Import List String Ascii Arith Bool Lia PrimFloat.
From Stdlib Require Import ZArith Uint63 Permutation.
#[local] Set Warnings "-inexact-float".
Import ListNotations.
Open Scope string_scope.
Open Scope list_scope.

(** ** Exceptions and results *)

Inductive exn : Type :=
| ValidationError (message : string)
| DoesNotExist
| IntegrityError
| AttributeError
| TypeError.

Inductive result (A : Type) : Type :=
| Ok (a : A)
| Raise (e : exn)
| OutOfFuel.

Arguments Ok {A} a.
Arguments Raise {A} e.
Arguments OutOfFuel {A}.

Definition bind {A B : Type} (m : result A) (k : A -> result B) : result B :=
  match m with
  | Ok a => k a
  | Raise e => Raise e
  | OutOfFuel => OutOfFuel
  end.

Notation "x <- m ;; k" := (bind m (fun x => k))
  (at level 61, m at next level, right associativity).
Notation "m ;;; k" := (bind m (fun _ => k))
  (at level 61, right associativity).

(** [for x in l: yield from f x], for a generator body [f] that may fail. *)
Fixpoint concat_mapM {A B : Type} (f : A -> result (list B)) (l : list A)
  : result (list B) :=
  match l with
  | [] => Ok []
  | x :: rest =>
      ys <- f x ;;
      zs <- concat_mapM f rest ;;
      Ok (ys ++ zs)
  end.

(** [[f x for x in l]], for an [f] that may fail. *)
Fixpoint mapM {A B : Type} (f : A -> result B) (l : list A)
  : result (list B) :=
  match l with
  | [] => Ok []
  | x :: rest =>
      y <- f x ;;
      ys <- mapM f rest ;;
      Ok (y :: ys)
  end.

(** ** Primary keys *)

Definition pk_eqb (a b : option nat) : bool :=
  match a, b with
  | Some x, Some y => Nat.eqb x y
  | None, None => true
  | _, _ => false
  end.

(** [Model.__eq__]: two instances are equal when they carry the same
    primary key; an unsaved instance is equal to itself only, and two
    distinct unsaved records are never equal. *)
Definition model_eqb (a b : option nat) : bool :=
  match a, b with
  | Some x, Some y => Nat.eqb x y
  | _, _ => false
  end.

(** ** The models *)

(** [Characteristic] rows are only ever read from the database here, so
    their key is always present. *)
Record Characteristic : Type := {
  char_id : nat;
  char_category : nat;
  char_name : string
}.

Record Category : Type := {
  cat_id : option nat;
  cat_name : string;
  cat_slug : string;
  cat_parent : option nat;
  cat_order_number : nat
}.

Record ProductAttribute : Type := {
  attr_id : option nat;
  attr_characteristic : option nat;
  attr_product : option nat;
  attr_name : string;
  attr_value : string;
  attr_value_float : option float
}.

(** [predefined_attributes] is not a field: it is an attribute the caller
    may attach to the instance, read with [getattr(self,
    'predefined_attributes', [])]; [None] is the instance without it. *)
Record Product : Type := {
  prod_id : option nat;
  prod_name : string;
  prod_slug : string;
  prod_code : string;
  prod_category : nat;
  predefined_attributes : option (list ProductAttribute)
}.

Record DB : Type := {
  categories : list Category;
  characteristics : list Characteristic;
  products : list Product;
  attributes : list ProductAttribute
}.

Definition set_cat_slug (c : Category) (s : string) : Category :=
  {| cat_id := cat_id c; cat_name := cat_name c; cat_slug := s;
     cat_parent := cat_parent c; cat_order_number := cat_order_number c |}.

Definition set_cat_id (i : nat) (c : Category) : Category :=
  {| cat_id := Some i; cat_name := cat_name c; cat_slug := cat_slug c;
     cat_parent := cat_parent c; cat_order_number := cat_order_number c |}.

Definition set_prod_slug (p : Product) (s : string) : Product :=
  {| prod_id := prod_id p; prod_name := prod_name p; prod_slug := s;
     prod_code := prod_code p; prod_category := prod_category p;
     predefined_attributes := predefined_attributes p |}.

Definition set_prod_id (i : nat) (p : Product) : Product :=
  {| prod_id := Some i; prod_name := prod_name p; prod_slug := prod_slug p;
     prod_code := prod_code p; prod_category := prod_category p;
     predefined_attributes := predefined_attributes p |}.

Definition set_predefined_attributes (p : Product)
  (l : option (list ProductAttribute)) : Product :=
  {| prod_id := prod_id p; prod_name := prod_name p; prod_slug := prod_slug p;
     prod_code := prod_code p; prod_category := prod_category p;
     predefined_attributes := l |}.

Definition set_attr_id (i : nat) (a : ProductAttribute) : ProductAttribute :=
  {| attr_id := Some i; attr_characteristic := attr_characteristic a;
     attr_product := attr_product a; attr_name := attr_name a;
     attr_value := attr_value a; attr_value_float := attr_value_float a |}.

Definition set_attr_product (a : ProductAttribute) (p : option nat)
  : ProductAttribute :=
  {| attr_id := attr_id a; attr_characteristic := attr_characteristic a;
     attr_product := p; attr_name := attr_name a;
     attr_value := attr_value a; attr_value_float := attr_value_float a |}.

Definition set_attr_value_float (a : ProductAttribute) (f : option float)
  : ProductAttribute :=
  {| attr_id := attr_id a; attr_characteristic := attr_characteristic a;
     attr_product := attr_product a; attr_name := attr_name a;
     attr_value := attr_value a; attr_value_float := f |}.

Definition with_categories (db : DB) (l : list Category) : DB :=
  {| categories := l; characteristics := characteristics db;
     products := products db; attributes := attributes db |}.

Definition with_products (db : DB) (l : list Product) : DB :=
  {| categories := categories db; characteristics := characteristics db;
     products := l; attributes := attributes db |}.

Definition with_attributes (db : DB) (l : list ProductAttribute) : DB :=
  {| categories := categories db; characteristics := characteristics db;
     products := products db; attributes := l |}.

(** ** The object-relational layer *)

(** [Meta.ordering = ['order_number']]: a stable insertion sort of the
    table on the sort key. *)
Fixpoint insert_by (key : Category -> nat) (x : Category) (l : list Category)
  : list Category :=
  match l with
  | [] => [x]
  | y :: rest =>
      if Nat.leb (key x) (key y) then x :: l else y :: insert_by key x rest
  end.

Definition order_by (key : Category -> nat) (l : list Category)
  : list Category :=
  fold_right (insert_by key) [] l.

(** [Category.objects]: every row, in the model's default ordering. *)
Definition Category_objects (db : DB) : list Category :=
  order_by cat_order_number (categories db).

(** [Category.objects.get(id=i)]. *)
Definition get_category (db : DB) (i : nat) : result Category :=
  match find (fun c => pk_eqb (cat_id c) (Some i)) (categories db) with
  | Some c => Ok c
  | None => Raise DoesNotExist
  end.

(** [Product.objects.get(id=i)]. *)
Definition get_product (db : DB) (i : nat) : result Product :=
  match find (fun p => pk_eqb (prod_id p) (Some i)) (products db) with
  | Some p => Ok p
  | None => Raise DoesNotExist
  end.

(** [qs.exclude(id=key)]: with [key = None] the condition is [id IS NULL],
    which no stored row meets, so nothing is excluded. *)
Definition exclude_id (key : option nat) (qs : list Category) : list Category :=
  match key with
  | None => qs
  | Some i => filter (fun c => negb (pk_eqb (cat_id c) (Some i))) qs
  end.

(** The descriptor [self.parent]: [None] for a root, else the fetched row. *)
Definition parent (db : DB) (self : Category) : result (option Category) :=
  match cat_parent self with
  | None => Ok None
  | Some pid => p <- get_category db pid ;; Ok (Some p)
  end.

(** The reverse relation [self.children.all()]. *)
Definition children (db : DB) (self : Category) : list Category :=
  match cat_id self with
  | None => []
  | Some i => filter (fun c => pk_eqb (cat_parent c) (Some i)) (Category_objects db)
  end.

(** The reverse relation [self.characteristics.all()]. *)
Definition characteristics_of (db : DB) (self : Category) : list Characteristic :=
  match cat_id self with
  | None => []
  | Some i => filter (fun ch => Nat.eqb (char_category ch) i) (characteristics db)
  end.

(** The reverse relation [self.attributes.all()] of a product. *)
Definition attributes_of (db : DB) (self : Product) : list ProductAttribute :=
  match prod_id self with
  | None => []
  | Some i => filter (fun a => pk_eqb (attr_product a) (Some i)) (attributes db)
  end.

(** [Characteristic.objects.get(id=k)]. *)
Definition get_characteristic (db : DB) (k : nat) : result Characteristic :=
  match find (fun ch => Nat.eqb (char_id ch) k) (characteristics db) with
  | Some ch => Ok ch
  | None => Raise DoesNotExist
  end.

(** The descriptor [self.characteristic] of an attribute: [None] when the
    foreign key is null, else the fetched row. *)
Definition characteristic (db : DB) (self : ProductAttribute)
  : result (option Characteristic) :=
  match attr_characteristic self with
  | None => Ok None
  | Some k => c <- get_characteristic db k ;; Ok (Some c)
  end.

(** [c in s], for a set [s] of characteristics and [None]s: the elements
    are compared by primary key. *)
Definition in_set (c : Characteristic) (s : list (option Characteristic))
  : bool :=
  existsb
    (fun o =>
       match o with
       | Some d => Nat.eqb (char_id d) (char_id c)
       | None => false
       end)
    s.

(** ** [class Category] *)

(** [get_top_categories]: categories that do not have parents. *)
Definition get_top_categories (db : DB) : list Category :=
  filter (fun c => match cat_parent c with None => true | Some _ => false end)
         (Category_objects db).

(** [get_siblings]: all categories that have the same parent as this. *)
Definition get_siblings (db : DB) (self : Category) : result (list Category) :=
  p <- parent db self ;;
  match p with
  | None => Ok (exclude_id (cat_id self) (get_top_categories db))
  | Some p =>
      Ok (exclude_id (cat_id self)
            (filter (fun c => pk_eqb (cat_parent c) (cat_id p))
                    (Category_objects db)))
  end.

(** [get_ancestors]: yields the parent, then the parent's ancestors. *)
Fixpoint get_ancestors (fuel : nat) (db : DB) (self : Category)
  : result (list Category) :=
  match fuel with
  | O => OutOfFuel
  | S fuel' =>
      p <- parent db self ;;
      match p with
      | None => Ok []
      | Some p =>
          rest <- get_ancestors fuel' db p ;;
          Ok (p :: rest)
      end
  end.

(** [get_descendants]: for each child, yields the child and then the
    child's descendants. *)
Fixpoint get_descendants (fuel : nat) (db : DB) (self : Category)
  : result (list Category) :=
  match fuel with
  | O => OutOfFuel
  | S fuel' =>
      concat_mapM
        (fun child =>
           below <- get_descendants fuel' db child ;;
           Ok (child :: below))
        (children db self)
  end.

(** [get_all_characteristics].  The loop runs once per ancestor, and its
    body reads [self.parent.characteristics], as the source does. *)
Definition get_all_characteristics (fuel : nat) (db : DB) (self : Category)
  : result (list Characteristic) :=
  ancestors <- get_ancestors fuel db self ;;
  inherited <-
    concat_mapM
      (fun _ : Category =>
         p <- parent db self ;;
         match p with
         | Some p => Ok (characteristics_of db p)
         | None => Raise AttributeError
         end)
      ancestors ;;
  Ok (characteristics_of db self ++ inherited).

(** ** Persistence

    [django.db.models.Model.save], the framework method every [save] of
    the module ends in: the row carrying the instance's key is replaced,
    and when there is no such row (or the instance has no key yet, in
    which case a fresh one is drawn) the instance is appended.  [to_row]
    projects the instance on its stored fields. *)

Definition fresh_key {R : Type} (key : R -> option nat) (table : list R) : nat :=
  S (fold_right
       (fun r m => match key r with Some i => Nat.max i m | None => m end)
       0 table).

Definition Model_save {R : Type} (key : R -> option nat)
  (set_key : nat -> R -> R) (to_row : R -> R) (self : R) (table : list R)
  : R * list R :=
  match key self with
  | None =>
      let self := set_key (fresh_key key table) self in
      (self, table ++ [to_row self])
  | Some i =>
      if existsb (fun r => pk_eqb (key r) (Some i)) table
      then (self,
            map (fun r => if pk_eqb (key r) (Some i) then to_row self else r)
                table)
      else (self, table ++ [to_row self])
  end.

(** [qs.exists()]. *)
Definition qs_exists {A : Type} (qs : list A) : bool :=
  match qs with
  | [] => false
  | _ :: _ => true
  end.

(** [set(l)] for a list of characteristics: one element per primary key. *)
Fixpoint set_of (l : list Characteristic) : list Characteristic :=
  match l with
  | [] => []
  | c :: rest =>
      if existsb (fun d => Nat.eqb (char_id d) (char_id c)) rest
      then set_of rest
      else c :: set_of rest
  end.

(** ** Messages of the validation errors

    [_] ([ugettext_lazy]) is taken as the identity: the message is the
    source's literal.  The names are the kinds the specification gives to
    the five places that raise. *)

Definition DuplicateSiblingSlug : exn :=
  ValidationError
    "Category with same name already exists on the same level. Please choose another name.".

Definition IllegalCategoryChange : exn :=
  ValidationError "Product category can be changed only to child category".

Definition MissingCharacteristicCoverage (names : list string) : exn :=
  ValidationError
    ("Attributes for characteristics: " ++ String.concat ", " names
       ++ " has to defined")%string.

Definition AttributeIdentityConflict : exn :=
  ValidationError
    "Product attribute can not have name if it is connected to characteristic.".

Definition AttributeIdentityMissing : exn :=
  ValidationError
    "Characteristic or name has to be defined for product attribute.".

(** Truth value of a [CharField]: the empty string is false. *)
Definition truthy (s : string) : bool :=
  match s with
  | EmptyString => false
  | String _ _ => true
  end.

(** Truth value of a nullable foreign key: [None] is false, an instance is
    true. *)
Definition is_set {A : Type} (o : option A) : bool :=
  match o with
  | Some _ => true
  | None => false
  end.

Section Models.

(** The collaborators the module imports: [slugify] (Django),
    [unidecode], and the builtin [float], which returns [None] where
    Python raises [ValueError]. *)
Variable slugify : string -> string.
Variable unidecode : string -> string.
Variable float : string -> option PrimFloat.float.

(** The order in which Python iterates over a set, which the language
    leaves open: the elements of the set, listed in that order. *)
Variable set_iteration : list Characteristic -> list Characteristic.

(** *** [Category.clean] and [Category.save] *)

Definition Category_clean (db : DB) (self : Category)
  : Category * result unit :=
  let self := set_cat_slug self (slugify (unidecode (cat_name self))) in
  (self,
   siblings <- get_siblings db self ;;
   if qs_exists
        (filter (fun c => String.eqb (cat_slug c) (cat_slug self)) siblings)
   then Raise DuplicateSiblingSlug
   else Ok tt).

Definition Category_save (db : DB) (self : Category)
  : Category * DB * result unit :=
  let self := set_cat_slug self (slugify (unidecode (cat_name self))) in
  let (self, table) :=
    Model_save cat_id set_cat_id (fun c => c) self (categories db) in
  (self, with_categories db table, Ok tt).

(** *** [class ProductAttribute] *)

Definition ProductAttribute_clean (db : DB) (self : ProductAttribute)
  : result unit :=
  c <- characteristic db self ;;
  (if is_set c && truthy (attr_name self)
   then Raise AttributeIdentityConflict
   else Ok tt) ;;;
  c <- characteristic db self ;;
  (if negb (is_set c) && negb (truthy (attr_name self))
   then Raise AttributeIdentityMissing
   else Ok tt).

(** [product] is a foreign key that is not nullable: the row of an
    attribute without a product is refused by the database. *)
Definition ProductAttribute_save (db : DB) (self : ProductAttribute)
  : ProductAttribute * DB * result unit :=
  let self :=
    match float (attr_value self) with
    | Some x => set_attr_value_float self (Some x)
    | None => self                         (* except ValueError: pass *)
    end in
  match attr_product self with
  | None => (self, db, Raise IntegrityError)
  | Some _ =>
      let (self, table) :=
        Model_save attr_id set_attr_id (fun a => a) self (attributes db) in
      (self, with_attributes db table, Ok tt)
  end.

(** *** [class Product] *)

Definition _get_all_attributes (db : DB) (self : Product)
  : list ProductAttribute :=
  attributes_of db self ++
  match predefined_attributes self with
  | Some l => l
  | None => []
  end.

(** Lines 143-147 of [Product.clean]: the product's category can be
    changed only to a child category.  [in] reads the generator up to the
    first match; on a walk that ends this is membership in the sequence
    of all descendants. *)
Definition check_category_change (fuel : nat) (db : DB) (self : Product)
  : result unit :=
  match prod_id self with
  | Some i =>
      stored <- get_product db i ;;
      previous_category <- get_category db (prod_category stored) ;;
      category <- get_category db (prod_category self) ;;
      if negb (model_eqb (cat_id previous_category) (cat_id category))
      then
        descendants <- get_descendants fuel db previous_category ;;
        if negb (existsb (fun d => model_eqb (cat_id category) (cat_id d))
                         descendants)
        then Raise IllegalCategoryChange
        else Ok tt
      else Ok tt
  | None => Ok tt
  end.

(** Lines 148-155 of [Product.clean]: every characteristic of the
    category must be the characteristic of some attribute.  Reading
    [attr.characteristic] fetches the related row of each attribute. *)
Definition check_required_characteristics (fuel : nat) (db : DB)
  (self : Product) : result unit :=
  category <- get_category db (prod_category self) ;;
  all_characteristics <- get_all_characteristics fuel db category ;;
  let category_characteristics := set_of all_characteristics in
  attributes_characteristics <-
    mapM (characteristic db) (_get_all_attributes db self) ;;
  let required_characteristics :=
    filter (fun c => negb (in_set c attributes_characteristics))
           category_characteristics in
  if qs_exists required_characteristics
  then Raise (MissingCharacteristicCoverage
                (map char_name (set_iteration required_characteristics)))
  else Ok tt.

Definition Product_clean (fuel : nat) (db : DB) (self : Product)
  : result unit :=
  check_category_change fuel db self ;;;
  check_required_characteristics fuel db self.

(** The [unique=True] columns of [Product]: [name], [slug] and [code]. *)
Definition violates_unique (db : DB) (self : Product) : bool :=
  existsb
    (fun r =>
       negb (model_eqb (prod_id r) (prod_id self)) &&
       (String.eqb (prod_name r) (prod_name self)
        || String.eqb (prod_slug r) (prod_slug self)
        || String.eqb (prod_code r) (prod_code self)))
    (products db).

(** The loop of [Product.save] over the predefined attributes. *)
Fixpoint save_predefined (db : DB) (owner : option nat)
  (l : list ProductAttribute) : list ProductAttribute * DB * result unit :=
  match l with
  | [] => ([], db, Ok tt)
  | attribute :: rest =>
      let attribute := set_attr_product attribute owner in
      match ProductAttribute_save db attribute with
      | (attribute, db, Ok _) =>
          match save_predefined db owner rest with
          | (rest, db, r) => (attribute :: rest, db, r)
          end
      | (attribute, db, r) => (attribute :: rest, db, r)
      end
  end.

Definition Product_save (db : DB) (self : Product)
  : Product * DB * result unit :=
  let self := set_prod_slug self (slugify (unidecode (prod_name self))) in
  if violates_unique db self
  then (self, db, Raise IntegrityError)
  else
    let (self, table) :=
      Model_save prod_id set_prod_id
        (fun p => set_predefined_attributes p None) self (products db) in
    let db := with_products db table in
    match predefined_attributes self with
    | None => (self, db, Ok tt)
    | Some l =>
        match save_predefined db (prod_id self) l with
        | (l, db, r) => (set_predefined_attributes self (Some l), db, r)
        end
    end.

End Models.

(** ** A small catalogue

    Root (1) has the children Electronics (2) and Furniture (4);
    Electronics has the child LED Lamps (3).  Root owns the characteristic
    Warranty, Electronics owns Voltage, LED Lamps owns Socket. *)

Module Catalogue.

Definition root : Category :=
  {| cat_id := Some 1; cat_name := "root"; cat_slug := "root";
     cat_parent := None; cat_order_number := 0 |}.
Definition electronics : Category :=
  {| cat_id := Some 2; cat_name := "electronics"; cat_slug := "electronics";
     cat_parent := Some 1; cat_order_number := 0 |}.
Definition led_lamps : Category :=
  {| cat_id := Some 3; cat_name := "led-lamps"; cat_slug := "led-lamps";
     cat_parent := Some 2; cat_order_number := 0 |}.
Definition furniture : Category :=
  {| cat_id := Some 4; cat_name := "furniture"; cat_slug := "furniture";
     cat_parent := Some 1; cat_order_number := 1 |}.

Definition warranty : Characteristic :=
  {| char_id := 1; char_category := 1; char_name := "Warranty" |}.
Definition voltage : Characteristic :=
  {| char_id := 2; char_category := 2; char_name := "Voltage" |}.
Definition socket : Characteristic :=
  {| char_id := 3; char_category := 3; char_name := "Socket" |}.

(** The product Lamp, stored under Electronics, with one attribute for
    each characteristic of Electronics and of its parent. *)
Definition lamp : Product :=
  {| prod_id := Some 1; prod_name := "lamp"; prod_slug := "lamp";
     prod_code := "L-1"; prod_category := 2;
     predefined_attributes := None |}.
Definition lamp_voltage : ProductAttribute :=
  {| attr_id := Some 1; attr_characteristic := Some 2;
     attr_product := Some 1; attr_name := ""; attr_value := "220";
     attr_value_float := Some 220%float |}.
Definition lamp_warranty : ProductAttribute :=
  {| attr_id := Some 2; attr_characteristic := Some 1;
     attr_product := Some 1; attr_name := ""; attr_value := "2";
     attr_value_float := Some 2%float |}.

Definition db : DB :=
  {| categories := [root; electronics; led_lamps; furniture];
     characteristics := [warranty; voltage; socket];
     products := [lamp];
     attributes := [lamp_voltage; lamp_warranty] |}.

(** Lamp as edited by a user who moves it to another category. *)
Definition lamp_moved_to (category : nat) : Product :=
  {| prod_id := Some 1; prod_name := "lamp"; prod_slug := "lamp";
     prod_code := "L-1"; prod_category := category;
     predefined_attributes := None |}.

(** A new product under Electronics that comes with two attributes for
    Voltage and one for Warranty. *)
Definition bound (characteristic : nat) (value : string) : ProductAttribute :=
  {| attr_id := None; attr_characteristic := Some characteristic;
     attr_product := None; attr_name := ""; attr_value := value;
     attr_value_float := None |}.
Definition radio : Product :=
  {| prod_id := None; prod_name := "radio"; prod_slug := "";
     prod_code := "R-1"; prod_category := 2;
     predefined_attributes :=
       Some [bound 2 "110"; bound 2 "220"; bound 1 "2"] |}.

(** A new product under Electronics without any attribute. *)
Definition bare_radio : Product :=
  {| prod_id := None; prod_name := "radio"; prod_slug := "";
     prod_code := "R-1"; prod_category := 2;
     predefined_attributes := None |}.

(** A new child of Root whose name collides with Furniture. *)
Definition furniture_again : Category :=
  {| cat_id := None; cat_name := "furniture"; cat_slug := "";
     cat_parent := Some 1; cat_order_number := 2 |}.

(** An attribute that was saved with the value 19.99 and whose value has
    since been edited to a text that is not a number. *)
Definition edited_price : ProductAttribute :=
  {| attr_id := Some 1; attr_characteristic := None;
     attr_product := Some 1; attr_name := "price"; attr_value := "N/A";
     attr_value_float := Some 19.99%float |}.

(** The catalogue with one more attribute row, left behind by a product
    that no longer exists: it refers to the product key 2 and to the
    characteristic key 99, and neither has a row. *)
Definition orphan : ProductAttribute :=
  {| attr_id := Some 3; attr_characteristic := Some 99;
     attr_product := Some 2; attr_name := ""; attr_value := "7";
     attr_value_float := None |}.
Definition db_with_orphan : DB :=
  {| categories := [root; electronics; led_lamps; furniture];
     characteristics := [warranty; voltage; socket];
     products := [lamp];
     attributes := [lamp_voltage; lamp_warranty; orphan] |}.

(** An attribute with both a characteristic and a name, and one with
    neither. *)
Definition named_voltage : ProductAttribute :=
  {| attr_id := None; attr_characteristic := Some 2;
     attr_product := None; attr_name := "voltage"; attr_value := "220";
     attr_value_float := None |}.
Definition anonymous : ProductAttribute :=
  {| attr_id := None; attr_characteristic := None;
     attr_product := None; attr_name := ""; attr_value := "220";
     attr_value_float := None |}.

(** A stand-in for [slugify] and [unidecode] on the names used above,
    which are already slugs. *)
Definition plain (s : string) : string := s.

(** A stand-in for [float] on the values used here.  It reads an unsigned
    decimal numeral of at most fifteen digits, with or without a
    fractional part, as the quotient of its digits by a power of ten; both
    are exact in binary64, so the quotient is the nearest binary64 number,
    which is what [float] returns.  It answers [None] on everything else.
    That is right for the texts used here (N/A, E27); the other spellings
    that Python accepts (signs, exponents, inf, nan, blanks around the
    numeral, underscores, longer numerals) are outside it. *)
Definition digit (c : ascii) : option nat :=
  let n := nat_of_ascii c in
  if Nat.leb 48 n && Nat.leb n 57 then Some (n - 48) else None.

Fixpoint digits (s : string) (value count : nat) : nat * nat * string :=
  match s with
  | EmptyString => (value, count, EmptyString)
  | String c rest =>
      match digit c with
      | Some d => digits rest (10 * value + d) (S count)
      | None => (value, count, s)
      end
  end.

Definition float_of_nat (n : nat) : float :=
  PrimFloat.of_uint63 (Uint63.of_Z (Z.of_nat n)).

Definition float_of_string (s : string) : option float :=
  match digits s 0 0 with
  | (whole, S n, EmptyString) =>
      if Nat.leb (S n) 15 then Some (float_of_nat whole) else None
  | (whole, n, String "." rest) =>
      match digits rest whole n with
      | (mantissa, S m, EmptyString) =>
          if Nat.leb (S m) 15
          then Some (PrimFloat.div (float_of_nat mantissa)
                                   (float_of_nat (10 ^ (S m - n))))
          else None
      | _ => None
      end
  | _ => None
  end.

(** The order of the list, standing for the order of iteration of a
    set. *)
Definition in_order (l : list Characteristic) : list Characteristic := l.

End Catalogue.

(** ** Well-formed category trees *)

(** The parent chain of [c] ends at a root: every parent key resolves to a
    stored row, and no chain runs into a cycle. *)
Inductive rooted (db : DB) : Category -> Prop :=
| rooted_top : forall c, cat_parent c = None -> rooted db c
| rooted_child : forall c pid p,
    cat_parent c = Some pid ->
    get_category db pid = Ok p ->
    rooted db p ->
    rooted db c.

(** Every stored category has a primary key, the keys of categories and
    of characteristics are unique, and the parent links form a forest. *)
Record well_formed (db : DB) : Prop := {
  wf_saved : forall c, In c (categories db) -> cat_id c <> None;
  wf_unique : NoDup (map cat_id (categories db));
  wf_characteristics : NoDup (map char_id (characteristics db));
  wf_rooted : forall c, In c (categories db) -> rooted db c
}.

(** An executable check of [well_formed]. *)
Fixpoint reaches_root (fuel : nat) (db : DB) (c : Category) : bool :=
  match fuel with
  | O => false
  | S fuel' =>
      match cat_parent c with
      | None => true
      | Some pid =>
          match get_category db pid with
          | Ok p => reaches_root fuel' db p
          | _ => false
          end
      end
  end.

Fixpoint distinct_keys (l : list (option nat)) : bool :=
  match l with
  | [] => true
  | k :: rest => negb (existsb (pk_eqb k) rest) && distinct_keys rest
  end.

Definition well_formedb (db : DB) : bool :=
  forallb (fun c => is_set (cat_id c)) (categories db)
  && distinct_keys (map cat_id (categories db))
  && distinct_keys (map (fun ch => Some (char_id ch)) (characteristics db))
  && forallb (reaches_root (List.length (categories db)) db) (categories db).

(** What the specification asks of a product: the characteristic [c] is
    the characteristic of some attribute of [p], stored or predefined. *)
Definition covered (db : DB) (p : Product) (c : Characteristic) : Prop :=
  exists a, In a (_get_all_attributes db p)
            /\ attr_characteristic a = Some (char_id c).

(** The attributes of [p], stored or predefined, whose characteristic is
    [c]. *)
Definition attributes_bound_to (db : DB) (p : Product) (c : Characteristic)
  : list ProductAttribute :=
  filter (fun a => pk_eqb (attr_characteristic a) (Some (char_id c)))
         (_get_all_attributes db p).

(** The characteristic the attribute refers to, if any, has a row. *)
Definition resolves (db : DB) (a : ProductAttribute) : Prop :=
  forall k, attr_characteristic a = Some k ->
            exists c, get_characteristic db k = Ok c.

(** An order of iteration lists the elements of the set it is given. *)
Definition permutes (order : list Characteristic -> list Characteristic)
  : Prop :=
  forall l, Permutation (order l) l.

(** [s] is a sibling of [self]: the same parent (or both roots), and not
    [self] itself. *)
Definition is_sibling (s self : Category) : Prop :=
  cat_parent s = cat_parent self
  /\ forall i, cat_id self = Some i -> cat_id s <> Some i.

(** ** Further methods of the module *)

(** [Category.get_products]: the descendants are collected in a set, the
    category itself is added, and the products whose category key is the
    key of a member are selected.  An instance without a key cannot be
    hashed, so adding it to the set raises [TypeError].  [Product] has no
    ordering: the order of the result is that of the table here and is
    not specified by the source. *)
Definition get_products (fuel : nat) (db : DB) (self : Category)
  : result (list Product) :=
  descendants <- get_descendants fuel db self ;;
  match cat_id self with
  | None => Raise TypeError
  | Some _ =>
      let descendants := self :: descendants in
      Ok (filter
            (fun p =>
               existsb (fun d => pk_eqb (cat_id d) (Some (prod_category p)))
                       descendants)
            (products db))
  end.

(** [ProductAttribute.get_display_name]: the characteristic's name when the
    attribute is connected to one, its own name otherwise. *)
Definition get_display_name (db : DB) (self : ProductAttribute)
  : result string :=
  match attr_characteristic self with
  | Some k =>
      characteristic <- get_characteristic db k ;;
      Ok (char_name characteristic)
  | None => Ok (attr_name self)
  end.

(** [ProductAttribute.__str__]: the attribute's own name. *)
Definition ProductAttribute_str (self : ProductAttribute) : string :=
  attr_name self.

(** [ProductImage], without the image file and the two thumbnails derived
    from it.  Image rows are only read from the database here. *)
Record ProductImage : Type := {
  img_id : nat;
  img_product : nat;
  img_description : string;
  img_is_main : bool
}.

(** [qs.first()] on a query set without an ordering: the row with the
    least primary key, [None] on an empty query set. *)
Fixpoint qs_first (qs : list ProductImage) : option ProductImage :=
  match qs with
  | [] => None
  | x :: rest =>
      match qs_first rest with
      | Some y => if Nat.leb (img_id x) (img_id y) then Some x else Some y
      | None => Some x
      end
  end.

(** The reverse relation [self.images.all()] of a product, on the table
    of images. *)
Definition images_of (images : list ProductImage) (self : Product)
  : list ProductImage :=
  match prod_id self with
  | None => []
  | Some i => filter (fun im => Nat.eqb (img_product im) i) images
  end.

(** [Product.get_main_image]. *)
Definition get_main_image (images : list ProductImage) (self : Product)
  : option ProductImage :=
  qs_first (filter img_is_main (images_of images self)).

(** The instance with further attributes appended to its predefined
    attributes. *)
Definition with_more_attributes (self : Product)
  (extra : list ProductAttribute) : Product :=
  set_predefined_attributes self
    (Some (match predefined_attributes self with
           | Some l => l
           | None => []
           end ++ extra)).

(** The attribute [a'] is what [Product.save] makes of the predefined
    attribute [a]: it belongs to [owner], has a key, carries the parsed
    number when the value parses, and is otherwise as [a] was. *)
Definition stored_as (float : string -> option PrimFloat.float)
  (owner : option nat) (a a' : ProductAttribute) : Prop :=
  attr_product a' = owner
  /\ attr_id a' <> None
  /\ attr_characteristic a' = attr_characteristic a
  /\ attr_name a' = attr_name a
  /\ attr_value a' = attr_value a
  /\ attr_value_float a' = match float (attr_value a) with
                           | Some x => Some x
                           | None => attr_value_float a
                           end.

(** Another stored product, not the instance itself, has the name, the
    slug or the code of [self]. *)
Definition collides (db : DB) (self : Product) : Prop :=
  exists r, In r (products db)
            /\ model_eqb (prod_id r) (prod_id self) = false
            /\ (prod_name r = prod_name self
                \/ prod_slug r = prod_slug self
                \/ prod_code r = prod_code self).

(** ** Invariants of the category table *)

(** Every stored category has a key and no two rows share one. *)
Definition keyed (db : DB) : Prop :=
  (forall c, In c (categories db) -> cat_id c <> None)
  /\ NoDup (map cat_id (categories db)).

(** No two distinct stored categories with the same parent (or both
    roots) share a slug. *)
Definition sibling_slugs_unique (db : DB) : Prop :=
  forall a b,
    In a (categories db) -> In b (categories db) ->
    cat_parent a = cat_parent b -> cat_slug a = cat_slug b -> a = b.

(** The query set is in the order of the sort key. *)
Fixpoint ordered_by (key : Category -> nat) (qs : list Category) : Prop :=
  match qs with
  | [] => True
  | x :: rest =>
      (forall y, In y rest -> key x <= key y) /\ ordered_by key rest
  end.

(** * Properties *)

(** ** Results and keys *)

Lemma bind_Ok {A B : Type} (m : result A) (k : A -> result B) (b : B) :
  bind m k = Ok b -> exists a, m = Ok a /\ k a = Ok b.
Proof.
  destruct m as [a | e | ]; simpl; intros H; try discriminate.
  exists a; split; [reflexivity | exact H].
Qed.

Lemma pk_eqb_eq (a b : option nat) : pk_eqb a b = true <-> a = b.
Proof.
  destruct a as [x | ], b as [y | ]; simpl; split; intros H;
    try discriminate; try reflexivity.
  - apply Nat.eqb_eq in H. now subst.
  - injection H as ->. apply Nat.eqb_refl.
Qed.

Lemma model_eqb_true (a b : option nat) :
  model_eqb a b = true <-> exists i, a = Some i /\ b = Some i.
Proof.
  destruct a as [x | ], b as [y | ]; simpl; split; intros H;
    try discriminate;
    try (destruct H as (i & Hi & Hj); discriminate).
  - apply Nat.eqb_eq in H. subst. now exists y.
  - destruct H as (i & Hi & Hj). injection Hi as ->. injection Hj as ->.
    apply Nat.eqb_refl.
Qed.

(** ** Query sets *)

Lemma In_insert_by (key : Category -> nat) (x y : Category) (l : list Category) :
  In y (insert_by key x l) <-> y = x \/ In y l.
Proof.
  induction l as [| z l IH]; simpl.
  - intuition.
  - destruct (Nat.leb (key x) (key z)); simpl; rewrite ?IH; intuition.
Qed.

Lemma In_order_by (key : Category -> nat) (y : Category) (l : list Category) :
  In y (order_by key l) <-> In y l.
Proof.
  unfold order_by. induction l as [| x l IH]; simpl.
  - tauto.
  - rewrite In_insert_by, IH. intuition.
Qed.

Lemma In_Category_objects (db : DB) (c : Category) :
  In c (Category_objects db) <-> In c (categories db).
Proof. apply In_order_by. Qed.

Lemma qs_exists_true {A : Type} (qs : list A) :
  qs_exists qs = true <-> exists x, In x qs.
Proof.
  destruct qs as [| x qs]; simpl; split; intros H; try discriminate.
  - destruct H as (x & []).
  - exists x. now left.
  - reflexivity.
Qed.

Lemma In_exclude_id (key : option nat) (qs : list Category) (c : Category) :
  In c (exclude_id key qs)
  <-> In c qs /\ forall i, key = Some i -> cat_id c <> Some i.
Proof.
  destruct key as [i | ]; simpl.
  - rewrite filter_In. split.
    + intros (Hin & Hne). split; [exact Hin |].
      intros j Hj; injection Hj as <-. intros Heq.
      rewrite Heq in Hne. simpl in Hne. rewrite Nat.eqb_refl in Hne.
      discriminate.
    + intros (Hin & Hne). split; [exact Hin |].
      destruct (pk_eqb (cat_id c) (Some i)) eqn:E; [| reflexivity].
      apply pk_eqb_eq in E. now elim (Hne i eq_refl).
  - split; [intros H; split; [exact H | discriminate] | tauto].
Qed.

Lemma get_category_Ok (db : DB) (i : nat) (c : Category) :
  get_category db i = Ok c -> In c (categories db) /\ cat_id c = Some i.
Proof.
  unfold get_category.
  destruct (find _ (categories db)) as [c' | ] eqn:E; [| discriminate].
  intros H; injection H as <-.
  apply find_some in E. destruct E as (Hin & Hk).
  apply pk_eqb_eq in Hk. now split.
Qed.

Lemma same_key_same_row (l : list Category) (a b : Category) :
  NoDup (map cat_id l) -> In a l -> In b l -> cat_id a = cat_id b -> a = b.
Proof.
  induction l as [| x l IH]; simpl; [tauto |].
  intros Hnd Ha Hb Hk. inversion Hnd as [| k ks Hnot Hnd']; subst.
  destruct Ha as [-> | Ha], Hb as [-> | Hb].
  - reflexivity.
  - elim Hnot. rewrite Hk. now apply in_map.
  - elim Hnot. rewrite <- Hk. now apply in_map.
  - now apply IH.
Qed.

Lemma find_first_key (l : list Category) (c : Category) (i : nat) :
  NoDup (map cat_id l) -> In c l -> cat_id c = Some i ->
  find (fun r => pk_eqb (cat_id r) (Some i)) l = Some c.
Proof.
  intros Hnd Hin Hk.
  destruct (find (fun r => pk_eqb (cat_id r) (Some i)) l) as [r | ] eqn:E.
  - apply find_some in E. destruct E as (Hr & Hrk).
    apply pk_eqb_eq in Hrk. f_equal.
    apply (same_key_same_row l); try assumption. congruence.
  - apply (find_none _ _ E) in Hin. rewrite Hk in Hin. simpl in Hin.
    rewrite Nat.eqb_refl in Hin. discriminate.
Qed.

Lemma get_category_stored (db : DB) (c : Category) (i : nat) :
  well_formed db -> In c (categories db) -> cat_id c = Some i ->
  get_category db i = Ok c.
Proof.
  intros Hwf Hin Hk. unfold get_category.
  now rewrite (find_first_key _ c i (wf_unique db Hwf) Hin Hk).
Qed.

Lemma In_children (db : DB) (c d : Category) :
  In d (children db c)
  <-> In d (categories db)
      /\ exists i, cat_id c = Some i /\ cat_parent d = Some i.
Proof.
  unfold children. destruct (cat_id c) as [i | ].
  - rewrite filter_In, In_Category_objects, pk_eqb_eq. split.
    + intros (Hin & Hp). split; [exact Hin | now exists i].
    + intros (Hin & j & Hj & Hp). injection Hj as <-. now split.
  - simpl. split; [tauto |]. intros (_ & i & Hi & _). discriminate.
Qed.

(** ** The executable well-formedness check is sound *)

Lemma reaches_root_rooted (db : DB) (fuel : nat) (c : Category) :
  reaches_root fuel db c = true -> rooted db c.
Proof.
  revert c. induction fuel as [| fuel IH]; simpl; intros c H;
    [discriminate |].
  destruct (cat_parent c) as [pid | ] eqn:Ep.
  - destruct (get_category db pid) as [p | e | ] eqn:Eg; try discriminate.
    eapply rooted_child; eauto.
  - now apply rooted_top.
Qed.

Lemma distinct_keys_NoDup (l : list (option nat)) :
  distinct_keys l = true -> NoDup l.
Proof.
  induction l as [| k l IH]; simpl; intros H; [constructor |].
  apply andb_true_iff in H. destruct H as (Hk & Hl).
  constructor; [| now apply IH].
  intros Hin. apply negb_true_iff in Hk.
  assert (existsb (pk_eqb k) l = true) as Hex.
  { apply existsb_exists. exists k. split; [exact Hin | now apply pk_eqb_eq]. }
  congruence.
Qed.

Lemma well_formedb_sound (db : DB) :
  well_formedb db = true -> well_formed db.
Proof.
  unfold well_formedb. intros H.
  apply andb_true_iff in H. destruct H as (H & Hroot).
  apply andb_true_iff in H. destruct H as (H & Hchars).
  apply andb_true_iff in H. destruct H as (Hsaved & Hkeys).
  rewrite forallb_forall in Hsaved, Hroot.
  constructor.
  - intros c Hin Hnone. specialize (Hsaved c Hin). rewrite Hnone in Hsaved.
    discriminate.
  - now apply distinct_keys_NoDup.
  - apply distinct_keys_NoDup in Hchars.
    rewrite <- (map_map char_id Some) in Hchars.
    now apply NoDup_map_inv in Hchars.
  - intros c Hin. eapply reaches_root_rooted. now apply Hroot.
Qed.

(** ** Generators that may fail *)

Lemma concat_mapM_In {A B : Type} (f : A -> result (list B)) (l : list A)
  (out : list B) (y : B) :
  concat_mapM f l = Ok out ->
  (In y out <-> exists x ys, In x l /\ f x = Ok ys /\ In y ys).
Proof.
  revert out. induction l as [| x l IH]; simpl; intros out H.
  - injection H as <-. split; [intros [] | intros (x & ys & [] & _)].
  - apply bind_Ok in H. destruct H as (ys & Hx & H).
    apply bind_Ok in H. destruct H as (zs & Hl & H).
    injection H as <-. rewrite in_app_iff, (IH zs Hl). split.
    + intros [Hy | (x' & ys' & Hin & Hf & Hy)].
      * exists x, ys. auto.
      * exists x', ys'. auto.
    + intros (x' & ys' & [<- | Hin] & Hf & Hy).
      * left. congruence.
      * right. exists x', ys'. auto.
Qed.

Lemma concat_mapM_total {A B : Type} (f : A -> result (list B)) (l : list A) :
  (forall x, In x l -> exists ys, f x = Ok ys) ->
  exists out, concat_mapM f l = Ok out.
Proof.
  induction l as [| x l IH]; simpl; intros H.
  - now exists [].
  - destruct (H x (or_introl eq_refl)) as (ys & ->).
    destruct IH as (zs & ->); [intros x' Hx'; apply H; now right |].
    simpl. now exists (ys ++ zs).
Qed.

Lemma concat_mapM_mono {A B : Type} (f g : A -> result (list B)) (l : list A)
  (out : list B) :
  (forall x ys, In x l -> f x = Ok ys -> g x = Ok ys) ->
  concat_mapM f l = Ok out -> concat_mapM g l = Ok out.
Proof.
  revert out. induction l as [| x l IH]; simpl; intros out Hfg H;
    [exact H |].
  apply bind_Ok in H. destruct H as (ys & Hx & H).
  apply bind_Ok in H. destruct H as (zs & Hl & H).
  rewrite (Hfg x ys (or_introl eq_refl) Hx). simpl.
  rewrite (IH zs); [exact H | | exact Hl].
  intros x' ys' Hin. apply Hfg. now right.
Qed.

(** ** [get_ancestors] *)

Lemma parent_Ok_Some (db : DB) (c p : Category) :
  parent db c = Ok (Some p) ->
  exists pid, cat_parent c = Some pid /\ get_category db pid = Ok p.
Proof.
  unfold parent. destruct (cat_parent c) as [pid | ]; [| discriminate].
  intros H. apply bind_Ok in H. destruct H as (q & Hq & H).
  injection H as <-. now exists pid.
Qed.

Lemma parent_Ok_None (db : DB) (c : Category) :
  parent db c = Ok None -> cat_parent c = None.
Proof.
  unfold parent. destruct (cat_parent c) as [pid | ]; [| reflexivity].
  intros H. apply bind_Ok in H. destruct H as (q & _ & H). discriminate.
Qed.

Lemma get_ancestors_S (fuel : nat) (db : DB) (c : Category)
  (l : list Category) :
  get_ancestors (S fuel) db c = Ok l ->
  (parent db c = Ok None /\ l = [])
  \/ exists p rest, parent db c = Ok (Some p)
                    /\ get_ancestors fuel db p = Ok rest /\ l = p :: rest.
Proof.
  simpl. intros H. apply bind_Ok in H. destruct H as ([p | ] & Hp & H).
  - right. apply bind_Ok in H. destruct H as (rest & Hrest & H).
    injection H as <-. now exists p, rest.
  - left. injection H as <-. now split.
Qed.

Lemma get_ancestors_mono (db : DB) (n m : nat) (c : Category)
  (l : list Category) :
  get_ancestors n db c = Ok l -> n <= m -> get_ancestors m db c = Ok l.
Proof.
  revert m c l. induction n as [| n IH]; intros m c l H Hle;
    [discriminate |].
  destruct m as [| m]; [lia |].
  apply get_ancestors_S in H.
  destruct H as [(Hp & ->) | (p & rest & Hp & Hrest & ->)]; simpl;
    rewrite Hp; simpl; [reflexivity |].
  rewrite (IH m p rest Hrest); [reflexivity | lia].
Qed.

Lemma get_ancestors_det (db : DB) (n m : nat) (c : Category)
  (l l' : list Category) :
  get_ancestors n db c = Ok l -> get_ancestors m db c = Ok l' -> l = l'.
Proof.
  intros Hn Hm.
  apply get_ancestors_mono with (m := Nat.max n m) in Hn; [| lia].
  apply get_ancestors_mono with (m := Nat.max n m) in Hm; [| lia].
  congruence.
Qed.

Lemma get_ancestors_length (db : DB) (n : nat) (c : Category)
  (l : list Category) :
  get_ancestors n db c = Ok l -> List.length l < n.
Proof.
  revert c l. induction n as [| n IH]; intros c l H; [discriminate |].
  apply get_ancestors_S in H.
  destruct H as [(_ & ->) | (p & rest & _ & Hrest & ->)]; simpl; [lia |].
  apply IH in Hrest. lia.
Qed.

Lemma get_ancestors_stored (db : DB) (n : nat) (c a : Category)
  (l : list Category) :
  get_ancestors n db c = Ok l -> In a l -> In a (categories db).
Proof.
  revert c l. induction n as [| n IH]; intros c l H Hin; [discriminate |].
  apply get_ancestors_S in H.
  destruct H as [(_ & ->) | (p & rest & Hp & Hrest & ->)]; [destruct Hin |].
  destruct Hin as [<- | Hin].
  - apply parent_Ok_Some in Hp. destruct Hp as (pid & _ & Hg).
    now apply get_category_Ok in Hg.
  - eapply IH; eauto.
Qed.

(** Each ancestor has a strictly shorter chain of ancestors of its own. *)
Lemma get_ancestors_shorter (db : DB) (n : nat) (c a : Category)
  (l : list Category) :
  get_ancestors n db c = Ok l -> In a l ->
  exists l', get_ancestors n db a = Ok l' /\ List.length l' < List.length l.
Proof.
  revert c l. induction n as [| n IH]; intros c l H Hin; [discriminate |].
  apply get_ancestors_S in H.
  destruct H as [(_ & ->) | (p & rest & Hp & Hrest & ->)]; [destruct Hin |].
  destruct Hin as [<- | Hin].
  - exists rest. split; [| simpl; lia].
    apply get_ancestors_mono with (n := n); [exact Hrest | lia].
  - destruct (IH p rest Hrest Hin) as (l' & Hl' & Hlen).
    exists l'. split; [| simpl; lia].
    apply get_ancestors_mono with (n := n); [exact Hl' | lia].
Qed.

Lemma rooted_get_ancestors (db : DB) (c : Category) :
  rooted db c -> exists n l, get_ancestors n db c = Ok l.
Proof.
  induction 1 as [c Hp | c pid p Hp Hg _ (n & l & IH)].
  - exists 1, []. simpl. unfold parent. now rewrite Hp.
  - exists (S n), (p :: l). simpl. unfold parent. rewrite Hp, Hg. simpl.
    now rewrite IH.
Qed.

(** One budget is enough for the ancestors of every stored category. *)
Lemma get_ancestors_bound (db : DB) (rows : list Category) :
  (forall c, In c rows -> rooted db c) ->
  exists n, forall c, In c rows -> exists l, get_ancestors n db c = Ok l.
Proof.
  induction rows as [| r rows IH]; intros H.
  - exists 0. intros c [].
  - destruct IH as (n & Hn); [intros c Hc; apply H; now right |].
    destruct (rooted_get_ancestors db r (H r (or_introl eq_refl)))
      as (k & l & Hk).
    exists (Nat.max n k). intros c [<- | Hc].
    + exists l. apply get_ancestors_mono with (n := k); [exact Hk | lia].
    + destruct (Hn c Hc) as (l' & Hl'). exists l'.
      apply get_ancestors_mono with (n := n); [exact Hl' | lia].
Qed.

(** ** [get_descendants] *)

Lemma get_descendants_In (fuel : nat) (db : DB) (c d : Category)
  (l : list Category) :
  get_descendants (S fuel) db c = Ok l ->
  (In d l <->
   exists child below, In child (children db c)
                       /\ get_descendants fuel db child = Ok below
                       /\ (d = child \/ In d below)).
Proof.
  simpl. intros H. rewrite (concat_mapM_In _ _ l d H). split.
  - intros (child & ys & Hin & Hf & Hd).
    apply bind_Ok in Hf. destruct Hf as (below & Hbelow & Hf).
    injection Hf as <-. exists child, below.
    destruct Hd as [<- | Hd]; auto.
  - intros (child & below & Hin & Hbelow & Hd).
    exists child, (child :: below). rewrite Hbelow. simpl.
    intuition; subst; auto.
Qed.

Lemma get_descendants_mono (db : DB) (n m : nat) (c : Category)
  (l : list Category) :
  get_descendants n db c = Ok l -> n <= m -> get_descendants m db c = Ok l.
Proof.
  revert m c l. induction n as [| n IH]; intros m c l H Hle;
    [discriminate |].
  destruct m as [| m]; [lia |].
  simpl in *. eapply concat_mapM_mono; [| exact H].
  intros child ys _ Hf. simpl in Hf.
  apply bind_Ok in Hf. destruct Hf as (below & Hbelow & Hf).
  rewrite (IH m child below Hbelow); [exact Hf | lia].
Qed.

Lemma get_descendants_stored (db : DB) (n : nat) (c d : Category)
  (l : list Category) :
  get_descendants n db c = Ok l -> In d l -> In d (categories db).
Proof.
  revert c l. induction n as [| n IH]; intros c l H Hin; [discriminate |].
  apply (get_descendants_In n db c d l H) in Hin.
  destruct Hin as (child & below & Hchild & Hbelow & [-> | Hd]).
  - now apply In_children in Hchild.
  - eapply IH; eauto.
Qed.

(** The ancestors of a child are its parent followed by the parent's
    ancestors. *)
Lemma child_get_ancestors (db : DB) (n : nat) (c d : Category)
  (l : list Category) :
  well_formed db -> In c (categories db) -> In d (children db c) ->
  get_ancestors n db c = Ok l ->
  get_ancestors (S n) db d = Ok (c :: l).
Proof.
  intros Hwf Hc Hd Hl. apply In_children in Hd.
  destruct Hd as (_ & i & Hi & Hp).
  simpl. unfold parent. rewrite Hp.
  rewrite (get_category_stored db c i Hwf Hc Hi). simpl. now rewrite Hl.
Qed.

(** Every descendant lies strictly deeper in the tree. *)
Lemma get_descendants_deeper (db : DB) (n k : nat) (c d : Category)
  (l la : list Category) :
  well_formed db -> In c (categories db) ->
  get_descendants n db c = Ok l -> In d l ->
  get_ancestors k db c = Ok la ->
  exists k' ld, get_ancestors k' db d = Ok ld
                /\ List.length la < List.length ld.
Proof.
  intros Hwf. revert k c l la.
  induction n as [| n IH]; intros k c l la Hc H Hin Hla; [discriminate |].
  apply (get_descendants_In n db c d l H) in Hin.
  destruct Hin as (child & below & Hchild & Hbelow & Hd).
  pose proof (child_get_ancestors db k c child la Hwf Hc Hchild Hla) as Hca.
  destruct Hd as [-> | Hd].
  - exists (S k), (c :: la). split; [exact Hca | simpl; lia].
  - assert (In child (categories db)) as Hstored
      by (now apply In_children in Hchild).
    destruct (IH (S k) child below (c :: la) Hstored Hbelow Hd Hca)
      as (k' & ld & Hld & Hlen).
    exists k', ld. split; [exact Hld | simpl in Hlen; lia].
Qed.

(** In a well-formed tree the walk down from any stored category ends. *)
Lemma get_descendants_total (db : DB) :
  well_formed db ->
  exists n, forall c, In c (categories db) ->
                      exists l, get_descendants n db c = Ok l.
Proof.
  intros Hwf.
  destruct (get_ancestors_bound db (categories db) (wf_rooted db Hwf))
    as (depth & Hdepth).
  assert (forall k c la,
             In c (categories db) ->
             get_ancestors depth db c = Ok la ->
             depth <= List.length la + k ->
             exists l, get_descendants k db c = Ok l) as Hk.
  { induction k as [| k IH]; intros c la Hc Hla Hle.
    - apply get_ancestors_length in Hla. lia.
    - simpl. apply concat_mapM_total. intros child Hchild.
      assert (In child (categories db)) as Hstored
        by (now apply In_children in Hchild).
      destruct (Hdepth child Hstored) as (lc & Hlc).
      pose proof (child_get_ancestors db depth c child la Hwf Hc Hchild Hla)
        as Hca.
      pose proof (get_ancestors_det db _ _ child _ _ Hlc Hca) as ->.
      destruct (IH child (c :: la) Hstored Hlc) as (below & ->);
        [simpl; lia |].
      simpl. now exists (child :: below). }
  exists depth. intros c Hc. destruct (Hdepth c Hc) as (la & Hla).
  apply (Hk depth c la Hc Hla). lia.
Qed.

Lemma stored_key (db : DB) (c : Category) :
  well_formed db -> In c (categories db) -> exists i, cat_id c = Some i.
Proof.
  intros Hwf Hc. pose proof (wf_saved db Hwf c Hc) as Hk.
  destruct (cat_id c) as [i | ]; [now exists i | now elim Hk].
Qed.

Lemma model_eqb_stored (db : DB) (a b : Category) :
  well_formed db -> In a (categories db) -> In b (categories db) ->
  (model_eqb (cat_id a) (cat_id b) = true <-> a = b).
Proof.
  intros Hwf Ha Hb. rewrite model_eqb_true. split.
  - intros (i & Hi & Hj).
    apply (same_key_same_row (categories db)); try assumption;
      [apply (wf_unique db Hwf) | congruence].
  - intros <-. destruct (stored_key db a Hwf Ha) as (i & Hi). now exists i.
Qed.

Lemma not_own_ancestor (db : DB) (n : nat) (c : Category)
  (l : list Category) :
  get_ancestors n db c = Ok l -> ~ In c l.
Proof.
  intros H Hin.
  destruct (get_ancestors_shorter db n c c l H Hin) as (l' & Hl' & Hlen).
  rewrite (get_ancestors_det db n n c l l' H Hl') in Hlen. lia.
Qed.

Lemma not_own_descendant (db : DB) (n : nat) (c : Category)
  (l : list Category) :
  well_formed db -> In c (categories db) ->
  get_descendants n db c = Ok l -> ~ In c l.
Proof.
  intros Hwf Hc H Hin.
  destruct (rooted_get_ancestors db c (wf_rooted db Hwf c Hc))
    as (k & la & Hla).
  destruct (get_descendants_deeper db n k c c l la Hwf Hc H Hin Hla)
    as (k' & ld & Hld & Hlen).
  rewrite (get_ancestors_det db k k' c la ld Hla Hld) in Hlen. lia.
Qed.

(** ** Tree walks: no category is its own ancestor or descendant *)

(** C8.  In a well-formed (acyclic) category tree, both walks from a stored
    category [c] end: with enough budget [get_ancestors] and
    [get_descendants] return finite sequences.  Neither sequence has [c]
    as a member, whether membership is tested as Python's [in] does (by
    primary key) or on the rows themselves. *)
Theorem no_self_membership (db : DB) (c : Category) :
  well_formed db ->
  In c (categories db) ->
  exists fuel0, forall fuel, fuel0 <= fuel ->
    exists ancestors descendants,
      get_ancestors fuel db c = Ok ancestors
      /\ get_descendants fuel db c = Ok descendants
      /\ (forall a, In a ancestors -> model_eqb (cat_id c) (cat_id a) = false)
      /\ (forall d, In d descendants -> model_eqb (cat_id c) (cat_id d) = false)
      /\ ~ In c ancestors
      /\ ~ In c descendants.
Proof.
  intros Hwf Hc.
  destruct (rooted_get_ancestors db c (wf_rooted db Hwf c Hc))
    as (n & la & Hla).
  destruct (get_descendants_total db Hwf) as (m & Hm).
  destruct (Hm c Hc) as (ld & Hld).
  exists (Nat.max n m). intros fuel Hfuel.
  apply get_ancestors_mono with (m := fuel) in Hla; [| lia].
  apply get_descendants_mono with (m := fuel) in Hld; [| lia].
  pose proof (not_own_ancestor db fuel c la Hla) as Hna.
  pose proof (not_own_descendant db fuel c ld Hwf Hc Hld) as Hnd.
  exists la, ld. repeat split; try assumption.
  - intros a Ha. destruct (model_eqb (cat_id c) (cat_id a)) eqn:E;
      [| reflexivity].
    apply (model_eqb_stored db c a Hwf Hc) in E;
      [subst; contradiction |].
    eapply get_ancestors_stored; eauto.
  - intros d Hd. destruct (model_eqb (cat_id c) (cat_id d)) eqn:E;
      [| reflexivity].
    apply (model_eqb_stored db c d Hwf Hc) in E;
      [subst; contradiction |].
    eapply get_descendants_stored; eauto.
Qed.

Lemma no_self_membership_witness :
  well_formed Catalogue.db
  /\ In Catalogue.electronics (categories Catalogue.db)
  /\ exists fuel0, forall fuel, fuel0 <= fuel ->
       exists ancestors descendants,
         get_ancestors fuel Catalogue.db Catalogue.electronics = Ok ancestors
         /\ get_descendants fuel Catalogue.db Catalogue.electronics
            = Ok descendants
         /\ (forall a, In a ancestors ->
               model_eqb (cat_id Catalogue.electronics) (cat_id a) = false)
         /\ (forall d, In d descendants ->
               model_eqb (cat_id Catalogue.electronics) (cat_id d) = false)
         /\ ~ In Catalogue.electronics ancestors
         /\ ~ In Catalogue.electronics descendants.
Proof.
  assert (well_formed Catalogue.db) as Hwf
    by (apply well_formedb_sound; reflexivity).
  assert (In Catalogue.electronics (categories Catalogue.db)) as Hin
    by (simpl; auto).
  split; [exact Hwf |]. split; [exact Hin |].
  exact (no_self_membership Catalogue.db Catalogue.electronics Hwf Hin).
Defined.

(** ** [ProductAttribute.clean]: a characteristic or a name, not both *)

Lemma truthy_true (s : string) : truthy s = true <-> s <> "".
Proof.
  destruct s; simpl; split; intros H; try discriminate; try reflexivity.
  now elim H.
Qed.

Lemma is_set_true {A : Type} (o : option A) : is_set o = true <-> o <> None.
Proof.
  destruct o; simpl; split; intros H; try discriminate; try reflexivity.
  now elim H.
Qed.

Lemma characteristic_None (db : DB) (self : ProductAttribute) :
  characteristic db self = Ok None <-> attr_characteristic self = None.
Proof.
  unfold characteristic. destruct (attr_characteristic self) as [k | ].
  - destruct (get_characteristic db k); simpl; split; discriminate.
  - tauto.
Qed.

Lemma characteristic_Some (db : DB) (self : ProductAttribute)
  (c : Characteristic) :
  characteristic db self = Ok (Some c)
  <-> exists k, attr_characteristic self = Some k
                /\ get_characteristic db k = Ok c.
Proof.
  unfold characteristic. destruct (attr_characteristic self) as [k | ].
  - split.
    + intros H. exists k. split; [reflexivity |].
      destruct (get_characteristic db k); simpl in H; try discriminate.
      congruence.
    + intros (k' & Hk & Hg). injection Hk as <-. now rewrite Hg.
  - split; [discriminate | intros (k & Hk & _); discriminate].
Qed.

Lemma get_characteristic_Ok (db : DB) (k : nat) (c : Characteristic) :
  get_characteristic db k = Ok c -> In c (characteristics db) /\ char_id c = k.
Proof.
  unfold get_characteristic.
  destruct (find _ (characteristics db)) as [c' | ] eqn:E; [| discriminate].
  intros H; injection H as <-. apply find_some in E.
  destruct E as (Hin & Hk). apply Nat.eqb_eq in Hk. now split.
Qed.

Lemma ProductAttribute_clean_cases (db : DB) (self : ProductAttribute) :
  ProductAttribute_clean db self =
  match characteristic db self with
  | Ok c =>
      match is_set c, truthy (attr_name self) with
      | true, true => Raise AttributeIdentityConflict
      | false, false => Raise AttributeIdentityMissing
      | _, _ => Ok tt
      end
  | Raise e => Raise e
  | OutOfFuel => OutOfFuel
  end.
Proof.
  unfold ProductAttribute_clean.
  destruct (characteristic db self) as [c | e | ]; simpl; try reflexivity.
  now destruct (is_set c), (truthy (attr_name self)).
Qed.

(** C6.  [ProductAttribute.clean] reads the attribute's characteristic and
    its name.  It raises the conflict error when the attribute has both a
    characteristic and a (non-empty) name, raises the missing-identity
    error when it has neither, and succeeds when it has exactly one of the
    two.  (When the key of the characteristic has no row, reading the
    characteristic raises [DoesNotExist], and so does [clean].) *)
Theorem ProductAttribute_clean_exactly_one (db : DB)
  (self : ProductAttribute) :
  (forall c, characteristic db self = Ok (Some c) -> attr_name self <> "" ->
             ProductAttribute_clean db self = Raise AttributeIdentityConflict)
  /\ (characteristic db self = Ok None -> attr_name self = "" ->
      ProductAttribute_clean db self = Raise AttributeIdentityMissing)
  /\ ((exists c, characteristic db self = Ok (Some c)) /\ attr_name self = ""
      \/ characteristic db self = Ok None /\ attr_name self <> "" ->
      ProductAttribute_clean db self = Ok tt)
  /\ (characteristic db self = Raise DoesNotExist ->
      ProductAttribute_clean db self = Raise DoesNotExist).
Proof.
  rewrite ProductAttribute_clean_cases.
  split; [| split; [| split]].
  - intros c Hc Hn. apply truthy_true in Hn. now rewrite Hc, Hn.
  - intros Hc Hn. now rewrite Hc, Hn.
  - intros [((c & Hc) & Hn) | (Hc & Hn)].
    + now rewrite Hc, Hn.
    + apply truthy_true in Hn. now rewrite Hc, Hn.
  - now intros ->.
Qed.

Lemma ProductAttribute_clean_exactly_one_witness :
  characteristic Catalogue.db Catalogue.named_voltage
  = Ok (Some Catalogue.voltage)
  /\ ProductAttribute_clean Catalogue.db Catalogue.named_voltage
     = Raise AttributeIdentityConflict
  /\ ProductAttribute_clean Catalogue.db Catalogue.anonymous
     = Raise AttributeIdentityMissing
  /\ ProductAttribute_clean Catalogue.db Catalogue.lamp_voltage = Ok tt
  /\ ProductAttribute_clean Catalogue.db Catalogue.edited_price = Ok tt
  /\ ProductAttribute_clean Catalogue.db (Catalogue.bound 99 "220")
     = Raise DoesNotExist.
Proof.
  split; [reflexivity |]. split; [| split; [| split; [| split]]].
  - apply (ProductAttribute_clean_exactly_one Catalogue.db
             Catalogue.named_voltage) with (c := Catalogue.voltage);
      [reflexivity | discriminate].
  - apply (ProductAttribute_clean_exactly_one Catalogue.db
             Catalogue.anonymous); reflexivity.
  - apply (ProductAttribute_clean_exactly_one Catalogue.db
             Catalogue.lamp_voltage).
    left. split; [now exists Catalogue.voltage | reflexivity].
  - apply (ProductAttribute_clean_exactly_one Catalogue.db
             Catalogue.edited_price).
    right. split; [reflexivity | discriminate].
  - apply (ProductAttribute_clean_exactly_one Catalogue.db
             (Catalogue.bound 99 "220")). reflexivity.
Defined.

(** C9.  An empty name counts as no name: with the name empty, [clean]
    succeeds on an attribute that has a characteristic and raises the
    missing-identity error on an attribute without one. *)
Theorem ProductAttribute_clean_empty_name (db : DB)
  (self : ProductAttribute) :
  attr_name self = "" ->
  (forall c, characteristic db self = Ok (Some c) ->
             ProductAttribute_clean db self = Ok tt)
  /\ (attr_characteristic self = None ->
      ProductAttribute_clean db self = Raise AttributeIdentityMissing).
Proof.
  intros Hn. rewrite ProductAttribute_clean_cases, Hn. simpl. split.
  - now intros c ->.
  - intros Hc. apply (characteristic_None db) in Hc. now rewrite Hc.
Qed.

Lemma ProductAttribute_clean_empty_name_witness :
  attr_name (Catalogue.bound 2 "220") = ""
  /\ characteristic Catalogue.db (Catalogue.bound 2 "220")
     = Ok (Some Catalogue.voltage)
  /\ ProductAttribute_clean Catalogue.db (Catalogue.bound 2 "220") = Ok tt
  /\ ProductAttribute_clean Catalogue.db Catalogue.anonymous
     = Raise AttributeIdentityMissing.
Proof.
  split; [reflexivity |]. split; [reflexivity |]. split.
  - apply (proj1 (ProductAttribute_clean_empty_name Catalogue.db
                    (Catalogue.bound 2 "220") eq_refl) Catalogue.voltage).
    reflexivity.
  - apply (proj2 (ProductAttribute_clean_empty_name Catalogue.db
                    Catalogue.anonymous eq_refl)).
    reflexivity.
Defined.

(** ** [save]: what is stored *)

Lemma Model_save_cases {R : Type} (key : R -> option nat)
  (set_key : nat -> R -> R) (to_row : R -> R) (self : R) (table : list R) :
  let saved := fst (Model_save key set_key to_row self table) in
  let table' := snd (Model_save key set_key to_row self table) in
  In (to_row saved) table'
  /\ (saved = self \/ exists i, saved = set_key i self).
Proof.
  unfold Model_save. destruct (key self) as [i | ] eqn:Ek.
  - destruct (existsb _ table) eqn:Ex; simpl.
    + split; [| now left].
      apply existsb_exists in Ex. destruct Ex as (r & Hr & Hk).
      apply in_map_iff. exists r. now rewrite Hk.
    + split; [| now left]. apply in_or_app. right. now left.
  - simpl. split; [| right; eauto]. apply in_or_app. right. now left.
Qed.

(** What [ProductAttribute.save] does in general.  An attribute without a
    product is refused by the database and nothing is stored.  Otherwise
    the save succeeds and stores the attribute.  In both cases
    [value_float] is the parsed number when [float] parses the value, and
    is left as it was when it does not. *)
Lemma ProductAttribute_save_value_float
  (float : string -> option PrimFloat.float) (db : DB)
  (self : ProductAttribute) :
  exists saved db' outcome,
    ProductAttribute_save float db self = (saved, db', outcome)
    /\ attr_value saved = attr_value self
    /\ attr_value_float saved =
       match float (attr_value self) with
       | Some x => Some x
       | None => attr_value_float self
       end
    /\ (attr_product self = None ->
        outcome = Raise IntegrityError /\ db' = db)
    /\ (attr_product self <> None ->
        outcome = Ok tt /\ In saved (attributes db')).
Proof.
  unfold ProductAttribute_save.
  set (parsed := match float (attr_value self) with
                 | Some x => set_attr_value_float self (Some x)
                 | None => self
                 end).
  assert (attr_value parsed = attr_value self
          /\ attr_product parsed = attr_product self
          /\ attr_value_float parsed
             = match float (attr_value self) with
               | Some x => Some x
               | None => attr_value_float self
               end) as (Hv & Hp & Hf)
      by (unfold parsed; now destruct (float (attr_value self))).
  rewrite Hp. destruct (attr_product self) as [owner | ].
  - pose proof (Model_save_cases attr_id set_attr_id (fun a => a) parsed
                  (attributes db)) as H.
    destruct (Model_save attr_id set_attr_id (fun a => a) parsed
                (attributes db)) as (saved, table).
    simpl in H. destruct H as (Hin & Hsaved).
    exists saved, (with_attributes db table), (Ok tt).
    split; [reflexivity |].
    assert (attr_value saved = attr_value parsed
            /\ attr_value_float saved = attr_value_float parsed) as (-> & ->)
      by (destruct Hsaved as [-> | (i & ->)]; now split).
    split; [exact Hv |]. split; [exact Hf |].
    split; [discriminate | now split].
  - exists parsed, db, (Raise IntegrityError).
    split; [reflexivity |]. split; [exact Hv |]. split; [exact Hf |].
    split; [now split | intros H; now elim H].
Qed.

(** The value 19.99 of the specification's example. *)
Lemma ProductAttribute_save_parses_number :
  exists saved db',
    ProductAttribute_save Catalogue.float_of_string Catalogue.db
      (set_attr_product (Catalogue.bound 2 "19.99") (Some 1))
    = (saved, db', Ok tt)
    /\ attr_value_float saved = Some 19.99%float.
Proof. eexists. eexists. split; reflexivity. Qed.

(** The statement that a value which does not parse leaves [value_float]
    at [None] fails on the code: an attribute saved earlier with a number
    keeps that number. *)
Lemma ProductAttribute_save_keeps_stale_number :
  ~ (forall (float : string -> option PrimFloat.float) (db : DB)
            (self : ProductAttribute),
        float (attr_value self) = None ->
        attr_value_float (fst (fst (ProductAttribute_save float db self)))
        = None).
Proof.
  intros H.
  specialize (H Catalogue.float_of_string Catalogue.db Catalogue.edited_price
                eq_refl).
  discriminate H.
Qed.

(** C4, at the input where the code departs from it.  The attribute was
    saved with the value 19.99 and its value has since been edited to the
    text N/A, which [float] refuses.  The save succeeds and returns the
    attribute as it was: the value is N/A and [value_float] is still
    19.99, not [None]. *)
Theorem ProductAttribute_save_stale_value_float
  (float : string -> option PrimFloat.float) (db : DB) :
  float "N/A" = None ->
  exists db',
    ProductAttribute_save float db Catalogue.edited_price
    = (Catalogue.edited_price, db', Ok tt)
    /\ attr_value Catalogue.edited_price = "N/A"
    /\ attr_value_float Catalogue.edited_price = Some 19.99%float
    /\ attr_value_float Catalogue.edited_price <> None.
Proof.
  intros Hfloat. unfold ProductAttribute_save. simpl. rewrite Hfloat. simpl.
  unfold Model_save. simpl.
  destruct (existsb _ (attributes db)); eexists;
    (split; [reflexivity |]); repeat split; discriminate.
Qed.

Lemma ProductAttribute_save_stale_value_float_witness :
  Catalogue.float_of_string "N/A" = None
  /\ exists db',
       ProductAttribute_save Catalogue.float_of_string Catalogue.db
         Catalogue.edited_price = (Catalogue.edited_price, db', Ok tt)
       /\ attr_value Catalogue.edited_price = "N/A"
       /\ attr_value_float Catalogue.edited_price = Some 19.99%float
       /\ attr_value_float Catalogue.edited_price <> None.
Proof.
  split; [reflexivity |].
  exact (ProductAttribute_save_stale_value_float Catalogue.float_of_string
           Catalogue.db eq_refl).
Defined.

(** ** [Category.clean]: slugs are unique among siblings *)

Lemma In_get_top_categories (db : DB) (c : Category) :
  In c (get_top_categories db) <-> In c (categories db) /\ cat_parent c = None.
Proof.
  unfold get_top_categories. rewrite filter_In, In_Category_objects.
  destruct (cat_parent c); intuition discriminate.
Qed.

Lemma In_get_siblings (db : DB) (self s : Category)
  (siblings : list Category) :
  get_siblings db self = Ok siblings ->
  (In s siblings <-> In s (categories db) /\ is_sibling s self).
Proof.
  unfold get_siblings, is_sibling. intros H.
  apply bind_Ok in H. destruct H as ([p | ] & Hp & H); injection H as <-;
    rewrite In_exclude_id.
  - apply parent_Ok_Some in Hp. destruct Hp as (pid & Hpid & Hg).
    apply get_category_Ok in Hg. destruct Hg as (_ & Hk).
    rewrite filter_In, In_Category_objects, pk_eqb_eq, Hk, Hpid. tauto.
  - apply parent_Ok_None in Hp.
    rewrite In_get_top_categories, Hp. tauto.
Qed.

Lemma get_siblings_set_cat_slug (db : DB) (self : Category) (s : string) :
  get_siblings db (set_cat_slug self s) = get_siblings db self.
Proof. reflexivity. Qed.

Lemma parent_get_siblings (db : DB) (self : Category) (p : option Category) :
  parent db self = Ok p -> exists siblings, get_siblings db self = Ok siblings.
Proof.
  unfold get_siblings. intros ->. simpl. destruct p; eauto.
Qed.

Lemma get_siblings_Raise (db : DB) (self : Category) (e : exn) :
  get_siblings db self = Raise e -> e = DoesNotExist.
Proof.
  unfold get_siblings, parent, get_category.
  destruct (cat_parent self) as [pid | ]; simpl; [| discriminate].
  destruct (find _ (categories db)); simpl; [discriminate |].
  now intros H; injection H as <-.
Qed.

Section CategorySlug.

Variable slugify : string -> string.
Variable unidecode : string -> string.

(** What [Category.clean] does once the siblings have been read. *)
Lemma Category_clean_outcome (db : DB) (self : Category)
  (siblings : list Category) :
  get_siblings db self = Ok siblings ->
  let slug := slugify (unidecode (cat_name self)) in
  fst (Category_clean slugify unidecode db self) = set_cat_slug self slug
  /\ ((snd (Category_clean slugify unidecode db self)
       = Raise DuplicateSiblingSlug
       /\ exists s, In s (categories db) /\ is_sibling s self
                    /\ cat_slug s = slug)
      \/ (snd (Category_clean slugify unidecode db self) = Ok tt
          /\ ~ exists s, In s (categories db) /\ is_sibling s self
                         /\ cat_slug s = slug)).
Proof.
  intros Hsib slug. unfold Category_clean. simpl.
  split; [reflexivity |].
  rewrite get_siblings_set_cat_slug, Hsib. simpl.
  fold slug.
  destruct (qs_exists
              (filter (fun c => String.eqb (cat_slug c) slug) siblings))
    eqn:E.
  - left. split; [reflexivity |].
    apply qs_exists_true in E. destruct E as (s & Hs).
    apply filter_In in Hs. destruct Hs as (Hs & Hslug).
    apply String.eqb_eq in Hslug.
    apply (In_get_siblings db self s siblings Hsib) in Hs.
    exists s. tauto.
  - right. split; [reflexivity |].
    intros (s & Hs & Hsibling & Hslug).
    assert (qs_exists
              (filter (fun c => String.eqb (cat_slug c) slug) siblings)
            = true) as Hex; [| congruence].
    apply qs_exists_true. exists s. apply filter_In. split.
    + apply (In_get_siblings db self s siblings Hsib). tauto.
    + now apply String.eqb_eq.
Qed.

Lemma Category_clean_raises (db : DB) (self : Category) (e : exn) :
  snd (Category_clean slugify unidecode db self) = Raise e ->
  e = DuplicateSiblingSlug ->
  exists siblings, get_siblings db self = Ok siblings.
Proof.
  unfold Category_clean. simpl. rewrite get_siblings_set_cat_slug.
  destruct (get_siblings db self) as [siblings | e' | ] eqn:E; simpl.
  - eauto.
  - intros H ->. injection H as ->.
    apply get_siblings_Raise in E. discriminate.
  - discriminate.
Qed.

End CategorySlug.

(** C5.  [Category.clean] recomputes the slug from the name and, for a
    category whose parent link resolves, raises the duplicate-sibling-slug
    error exactly when some stored category other than itself, with the
    same parent (or a root like it), already has that slug; otherwise it
    succeeds. *)
Theorem Category_clean_sibling_slug (slugify unidecode : string -> string)
  (db : DB) (self : Category) (p : option Category) :
  parent db self = Ok p ->
  let slug := slugify (unidecode (cat_name self)) in
  let outcome := snd (Category_clean slugify unidecode db self) in
  cat_slug (fst (Category_clean slugify unidecode db self)) = slug
  /\ (outcome = Raise DuplicateSiblingSlug
      <-> exists s, In s (categories db) /\ is_sibling s self
                    /\ cat_slug s = slug)
  /\ (outcome = Ok tt
      <-> ~ exists s, In s (categories db) /\ is_sibling s self
                      /\ cat_slug s = slug).
Proof.
  intros Hp slug outcome.
  destruct (parent_get_siblings db self p Hp) as (siblings & Hsib).
  destruct (Category_clean_outcome slugify unidecode db self siblings Hsib)
    as (Hself & Hcases).
  fold slug in Hself, Hcases. fold outcome in Hcases.
  split; [now rewrite Hself |].
  destruct Hcases as [(Hout & Hex) | (Hout & Hnone)]; rewrite Hout.
  - split; split; intros H; try assumption; try reflexivity;
      try discriminate. now elim H.
  - split; split; intros H; try assumption; try reflexivity;
      try discriminate. now elim Hnone.
Qed.

Lemma Category_clean_sibling_slug_witness :
  parent Catalogue.db Catalogue.furniture_again = Ok (Some Catalogue.root)
  /\ snd (Category_clean Catalogue.plain Catalogue.plain Catalogue.db
            Catalogue.furniture_again) = Raise DuplicateSiblingSlug.
Proof.
  split; [reflexivity |].
  apply (Category_clean_sibling_slug Catalogue.plain Catalogue.plain
           Catalogue.db Catalogue.furniture_again (Some Catalogue.root)
           eq_refl).
  exists Catalogue.furniture. split; [simpl; auto |].
  split; [| reflexivity]. split; [reflexivity | discriminate].
Defined.

(** C10.  [Category.clean] assigns the recomputed slug before it looks at
    the siblings: whenever it raises the duplicate-sibling-slug error, the
    instance it leaves behind already carries the new slug, which is the
    slug of one of its siblings. *)
Theorem Category_clean_slug_assigned_before_check
  (slugify unidecode : string -> string) (db : DB) (self : Category) :
  snd (Category_clean slugify unidecode db self) = Raise DuplicateSiblingSlug ->
  let left_behind := fst (Category_clean slugify unidecode db self) in
  left_behind = set_cat_slug self (slugify (unidecode (cat_name self)))
  /\ exists s, In s (categories db) /\ is_sibling s self
               /\ cat_slug s = cat_slug left_behind.
Proof.
  intros Hraise left_behind.
  destruct (Category_clean_raises slugify unidecode db self
              DuplicateSiblingSlug Hraise eq_refl) as (siblings & Hsib).
  destruct (Category_clean_outcome slugify unidecode db self siblings Hsib)
    as (Hself & [(_ & Hex) | (Hout & _)]).
  - fold left_behind in Hself. split; [exact Hself |].
    now rewrite Hself.
  - rewrite Hout in Hraise. discriminate.
Qed.

Lemma Category_clean_slug_assigned_before_check_witness :
  snd (Category_clean Catalogue.plain Catalogue.plain Catalogue.db
         Catalogue.furniture_again) = Raise DuplicateSiblingSlug
  /\ cat_slug Catalogue.furniture_again = ""
  /\ cat_slug (fst (Category_clean Catalogue.plain Catalogue.plain
                      Catalogue.db Catalogue.furniture_again)) = "furniture".
Proof.
  split; [reflexivity |]. split; [reflexivity |].
  destruct (Category_clean_slug_assigned_before_check Catalogue.plain
              Catalogue.plain Catalogue.db Catalogue.furniture_again eq_refl)
    as (H & _).
  now rewrite H.
Defined.

(** ** [Category.save] and [Product.save]: the slug follows the name *)

Lemma ProductAttribute_save_tables (float : string -> option PrimFloat.float)
  (db : DB) (self : ProductAttribute) :
  let db' := snd (fst (ProductAttribute_save float db self)) in
  categories db' = categories db /\ products db' = products db.
Proof.
  unfold ProductAttribute_save.
  destruct (attr_product _); [| now split].
  now destruct (Model_save _ _ _ _ _) as (saved, table).
Qed.

(** An attribute that has a product is always saved. *)
Lemma ProductAttribute_save_Ok (float : string -> option PrimFloat.float)
  (db : DB) (self : ProductAttribute) (owner : nat) :
  exists saved table,
    ProductAttribute_save float db (set_attr_product self (Some owner))
    = (saved, with_attributes db table, Ok tt).
Proof.
  unfold ProductAttribute_save.
  assert (attr_product
            (match float (attr_value (set_attr_product self (Some owner))) with
             | Some x =>
                 set_attr_value_float (set_attr_product self (Some owner))
                   (Some x)
             | None => set_attr_product self (Some owner)
             end) = Some owner) as ->
      by (now destruct (float _)).
  destruct (Model_save _ _ _ _ _) as (saved, table). eauto.
Qed.

(** Saving the predefined attributes touches the attribute table only. *)
Lemma save_predefined_tables (float : string -> option PrimFloat.float)
  (db : DB) (owner : option nat) (l : list ProductAttribute) :
  let db' := snd (fst (save_predefined float db owner l)) in
  categories db' = categories db /\ products db' = products db.
Proof.
  revert db. induction l as [| a l IH]; intros db; simpl; [now split |].
  pose proof (ProductAttribute_save_tables float db
                (set_attr_product a owner)) as Hone.
  destruct (ProductAttribute_save float db (set_attr_product a owner))
    as ((saved, db1), [[] | e | ]); simpl in Hone; try exact Hone.
  specialize (IH db1).
  destruct (save_predefined float db1 owner l) as ((rest, db2), r).
  simpl in *. destruct IH as (-> & ->). exact Hone.
Qed.

(** C7.  [Category.save] and [Product.save] start by assigning
    [slugify(unidecode(name))] to the slug, whatever the database holds:
    neither looks for another row with that slug.  [Category.save] always
    succeeds, and both the instance and its stored row carry the recomputed
    slug.  [Product.save] leaves the recomputed slug on the instance in
    every case, and when it succeeds the stored row carries it too. *)
Theorem save_recomputes_slug (slugify unidecode : string -> string)
  (float : string -> option PrimFloat.float) (db : DB) :
  (forall self : Category,
      exists saved db',
        Category_save slugify unidecode db self = (saved, db', Ok tt)
        /\ cat_name saved = cat_name self
        /\ cat_slug saved = slugify (unidecode (cat_name self))
        /\ In saved (categories db'))
  /\ (forall self : Product,
         exists saved db' outcome,
           Product_save slugify unidecode float db self = (saved, db', outcome)
           /\ prod_name saved = prod_name self
           /\ prod_slug saved = slugify (unidecode (prod_name self))
           /\ (outcome = Ok tt ->
               exists row, In row (products db')
                           /\ prod_id row = prod_id saved
                           /\ prod_name row = prod_name saved
                           /\ prod_slug row = prod_slug saved)).
Proof.
  split; intros self.
  - unfold Category_save.
    set (named := set_cat_slug self (slugify (unidecode (cat_name self)))).
    pose proof (Model_save_cases cat_id set_cat_id (fun c => c) named
                  (categories db)) as H.
    destruct (Model_save cat_id set_cat_id (fun c => c) named (categories db))
      as (saved, table). simpl in H. destruct H as (Hin & Hsaved).
    exists saved, (with_categories db table).
    split; [reflexivity |].
    destruct Hsaved as [-> | (i & ->)]; simpl; auto.
  - unfold Product_save.
    set (named := set_prod_slug self (slugify (unidecode (prod_name self)))).
    destruct (violates_unique db named).
    + exists named, db, (Raise IntegrityError).
      split; [reflexivity |]. split; [reflexivity |]. split; [reflexivity |].
      discriminate.
    + pose proof (Model_save_cases prod_id set_prod_id
                    (fun p => set_predefined_attributes p None) named
                    (products db)) as H.
      destruct (Model_save prod_id set_prod_id
                  (fun p => set_predefined_attributes p None) named
                  (products db)) as (saved, table).
      simpl in H. destruct H as (Hin & Hsaved).
      assert (prod_name saved = prod_name self
              /\ prod_slug saved = slugify (unidecode (prod_name self)))
        as (Hname & Hslug)
        by (destruct Hsaved as [-> | (i & ->)]; now split).
      destruct (predefined_attributes saved) as [l | ].
      * pose proof (save_predefined_tables float (with_products db table)
                      (prod_id saved) l) as Htables.
        destruct (save_predefined float (with_products db table)
                    (prod_id saved) l) as ((l', db'), outcome).
        simpl in Htables. destruct Htables as (_ & Hproducts).
        exists (set_predefined_attributes saved (Some l')), db', outcome.
        split; [reflexivity |]. split; [exact Hname |].
        split; [exact Hslug |]. intros _.
        exists (set_predefined_attributes saved None).
        rewrite Hproducts. now repeat split.
      * exists saved, (with_products db table), (Ok tt).
        split; [reflexivity |]. split; [exact Hname |].
        split; [exact Hslug |]. intros _.
        exists (set_predefined_attributes saved None). now repeat split.
Qed.

(** [Category.save] goes through where [Category.clean] refuses. *)
Lemma Category_save_stores_duplicate_slug :
  snd (Category_clean Catalogue.plain Catalogue.plain Catalogue.db
         Catalogue.furniture_again) = Raise DuplicateSiblingSlug
  /\ snd (Category_save Catalogue.plain Catalogue.plain Catalogue.db
            Catalogue.furniture_again) = Ok tt.
Proof. split; reflexivity. Qed.

Lemma save_recomputes_slug_witness :
  exists saved db',
    Category_save Catalogue.plain Catalogue.plain Catalogue.db
      Catalogue.furniture_again = (saved, db', Ok tt)
    /\ cat_name saved = cat_name Catalogue.furniture_again
    /\ cat_slug saved = "furniture"
    /\ In saved (categories db').
Proof.
  exact (proj1 (save_recomputes_slug Catalogue.plain Catalogue.plain
                  Catalogue.float_of_string Catalogue.db)
           Catalogue.furniture_again).
Defined.

(** ** [get_all_characteristics] *)

Lemma concat_mapM_const {A B : Type} (ys : list B) (l : list A) :
  concat_mapM (fun _ : A => Ok ys) l = Ok (List.concat (map (fun _ => ys) l)).
Proof.
  induction l as [| x l IH]; simpl; [reflexivity |]. now rewrite IH.
Qed.

(** What the method computes: the category's own characteristics, followed
    by those of its parent once for every ancestor. *)
Lemma get_all_characteristics_eq (fuel : nat) (db : DB) (c : Category)
  (ancestors : list Category) :
  get_ancestors fuel db c = Ok ancestors ->
  get_all_characteristics fuel db c =
  Ok (characteristics_of db c
        ++ List.concat (map (fun _ => match ancestors with
                                 | p :: _ => characteristics_of db p
                                 | [] => []
                                 end) ancestors)).
Proof.
  intros H. unfold get_all_characteristics. rewrite H. simpl.
  destruct fuel as [| fuel]; [discriminate |].
  apply get_ancestors_S in H.
  destruct H as [(_ & ->) | (p & rest & Hp & _ & ->)]; [reflexivity |].
  rewrite Hp. simpl bind at 2.
  now rewrite (concat_mapM_const (characteristics_of db p) (p :: rest)).
Qed.

Lemma In_concat_const {A B : Type} (ys : list B) (l : list A) (y : B) :
  In y (List.concat (map (fun _ => ys) l)) <-> l <> [] /\ In y ys.
Proof.
  induction l as [| x l IH]; simpl.
  - split; [intros [] | intros (H & _); now elim H].
  - rewrite in_app_iff, IH. split; [| tauto].
    intros [H | (_ & H)]; (split; [discriminate | exact H]).
Qed.

Lemma In_characteristics_of (db : DB) (c : Category) (ch : Characteristic) :
  In ch (characteristics_of db c) -> In ch (characteristics db).
Proof.
  unfold characteristics_of. destruct (cat_id c); [| intros []].
  intros H. now apply filter_In in H.
Qed.

Lemma get_all_characteristics_stored (fuel : nat) (db : DB) (c : Category)
  (chars : list Characteristic) (ch : Characteristic) :
  get_all_characteristics fuel db c = Ok chars ->
  In ch chars -> In ch (characteristics db).
Proof.
  intros H Hin. pose proof H as H'. unfold get_all_characteristics in H'.
  apply bind_Ok in H'. destruct H' as (ancestors & Hanc & _).
  rewrite (get_all_characteristics_eq fuel db c ancestors Hanc) in H.
  injection H as <-. apply in_app_iff in Hin. destruct Hin as [Hin | Hin].
  - now apply In_characteristics_of in Hin.
  - apply In_concat_const in Hin. destruct Hin as (_ & Hin).
    destruct ancestors as [| p rest]; [destruct Hin |].
    now apply In_characteristics_of in Hin.
Qed.

Lemma get_all_characteristics_mono (db : DB) (n m : nat) (c : Category)
  (chars : list Characteristic) :
  get_all_characteristics n db c = Ok chars -> n <= m ->
  get_all_characteristics m db c = Ok chars.
Proof.
  intros H Hle. pose proof H as H'. unfold get_all_characteristics in H'.
  apply bind_Ok in H'. destruct H' as (ancestors & Hanc & _).
  rewrite (get_all_characteristics_eq n db c ancestors Hanc) in H.
  rewrite <- H. apply get_all_characteristics_eq.
  now apply get_ancestors_mono with (n := n).
Qed.

Lemma get_all_characteristics_total (db : DB) (c : Category) :
  well_formed db -> In c (categories db) ->
  exists n chars, get_all_characteristics n db c = Ok chars.
Proof.
  intros Hwf Hc.
  destruct (rooted_get_ancestors db c (wf_rooted db Hwf c Hc))
    as (n & ancestors & H).
  exists n. eexists. now apply get_all_characteristics_eq with (1 := H).
Qed.

(** C1, at the input where the code departs from it.  LED Lamps has the
    ancestors Electronics and Root, and Root owns Warranty; the method
    returns Socket and then Voltage twice, and Warranty is not returned. *)
Theorem get_all_characteristics_leaves_out_grandparent :
  get_ancestors 3 Catalogue.db Catalogue.led_lamps
  = Ok [Catalogue.electronics; Catalogue.root]
  /\ characteristics_of Catalogue.db Catalogue.root = [Catalogue.warranty]
  /\ get_all_characteristics 3 Catalogue.db Catalogue.led_lamps
     = Ok [Catalogue.socket; Catalogue.voltage; Catalogue.voltage]
  /\ ~ In Catalogue.warranty
         [Catalogue.socket; Catalogue.voltage; Catalogue.voltage].
Proof.
  repeat split.
  simpl. intros [H | [H | [H | []]]]; discriminate H.
Qed.

(** ** [Product.clean]: the category may only move down the tree *)

Lemma check_category_change_mono (db : DB) (n m : nat) (self : Product) :
  check_category_change n db self = Ok tt -> n <= m ->
  check_category_change m db self = Ok tt.
Proof.
  unfold check_category_change. intros H Hle.
  destruct (prod_id self) as [i | ]; [| reflexivity].
  destruct (get_product db i) as [stored | | ]; simpl in *;
    try discriminate.
  destruct (get_category db (prod_category stored)) as [previous | | ];
    simpl in *; try discriminate.
  destruct (get_category db (prod_category self)) as [category | | ];
    simpl in *; try discriminate.
  destruct (negb (model_eqb (cat_id previous) (cat_id category)));
    [| reflexivity].
  destruct (get_descendants n db previous) as [ds | | ] eqn:E; simpl in *;
    try discriminate.
  now rewrite (get_descendants_mono db n m previous ds E Hle).
Qed.

Lemma In_descendants_by_key (db : DB) (n : nat) (a b : Category)
  (ds : list Category) :
  well_formed db -> In b (categories db) ->
  get_descendants n db a = Ok ds ->
  (existsb (fun d => model_eqb (cat_id b) (cat_id d)) ds = true <-> In b ds).
Proof.
  intros Hwf Hb Hds. rewrite existsb_exists. split.
  - intros (d & Hd & He).
    apply (model_eqb_stored db b d Hwf Hb) in He; [now subst |].
    eapply get_descendants_stored; eauto.
  - intros Hin. exists b. split; [exact Hin |].
    now apply (model_eqb_stored db b b Hwf Hb Hb).
Qed.

(** C3.  Let [self] be an edited instance of a stored product whose stored
    category is [previous] and whose new category is [category], in a
    well-formed tree.  With enough budget the descendants of [previous]
    are computed, and the category check of [Product.clean] passes when
    the category is unchanged, passes when the new category is among those
    descendants, and otherwise raises the illegal-category-change error,
    which is then the outcome of [clean]. *)
Theorem category_change_only_to_descendant
  (order : list Characteristic -> list Characteristic) (db : DB)
  (self stored : Product) (i : nat) (previous category : Category) :
  well_formed db ->
  prod_id self = Some i ->
  get_product db i = Ok stored ->
  get_category db (prod_category stored) = Ok previous ->
  get_category db (prod_category self) = Ok category ->
  exists fuel0, forall fuel, fuel0 <= fuel ->
    exists descendants,
      get_descendants fuel db previous = Ok descendants
      /\ (category = previous -> check_category_change fuel db self = Ok tt)
      /\ (category <> previous ->
          (In category descendants ->
           check_category_change fuel db self = Ok tt)
          /\ (~ In category descendants ->
              check_category_change fuel db self = Raise IllegalCategoryChange
              /\ Product_clean order fuel db self = Raise IllegalCategoryChange)).
Proof.
  intros Hwf Hid Hstored Hprev Hcat.
  destruct (get_category_Ok db _ _ Hprev) as (Hp & _).
  destruct (get_category_Ok db _ _ Hcat) as (Hc & _).
  destruct (get_descendants_total db Hwf) as (n & Hn).
  exists n. intros fuel Hfuel.
  destruct (Hn previous Hp) as (ds & Hds).
  apply get_descendants_mono with (m := fuel) in Hds; [| exact Hfuel].
  exists ds. split; [exact Hds |].
  pose proof (model_eqb_stored db previous category Hwf Hp Hc) as Heq.
  pose proof (In_descendants_by_key db fuel previous category ds Hwf Hc Hds)
    as Hmem.
  unfold Product_clean, check_category_change.
  rewrite Hid, Hstored. simpl. rewrite Hprev. simpl. rewrite Hcat. simpl.
  destruct (model_eqb (cat_id previous) (cat_id category)) eqn:E; simpl.
  - split; [reflexivity |]. intros Hne. elim Hne. symmetry. now apply Heq.
  - split.
    + intros Hsame. symmetry in Hsame. apply Heq in Hsame. congruence.
    + intros _. rewrite Hds. simpl.
      destruct (existsb _ ds) eqn:Ex; simpl.
      * split; [reflexivity |]. intros Hnot. elim Hnot. now apply Hmem.
      * split; [| split; reflexivity].
        intros Hin. apply Hmem in Hin. congruence.
Qed.

Lemma category_change_only_to_descendant_witness :
  well_formed Catalogue.db
  /\ Product_clean Catalogue.in_order 3 Catalogue.db (Catalogue.lamp_moved_to 4)
     = Raise IllegalCategoryChange
  /\ check_category_change 3 Catalogue.db (Catalogue.lamp_moved_to 3) = Ok tt
  /\ exists fuel0, forall fuel, fuel0 <= fuel ->
       exists descendants,
         get_descendants fuel Catalogue.db Catalogue.electronics
         = Ok descendants
         /\ (Catalogue.furniture = Catalogue.electronics ->
             check_category_change fuel Catalogue.db
               (Catalogue.lamp_moved_to 4) = Ok tt)
         /\ (Catalogue.furniture <> Catalogue.electronics ->
             (In Catalogue.furniture descendants ->
              check_category_change fuel Catalogue.db
                (Catalogue.lamp_moved_to 4) = Ok tt)
             /\ (~ In Catalogue.furniture descendants ->
                 check_category_change fuel Catalogue.db
                   (Catalogue.lamp_moved_to 4) = Raise IllegalCategoryChange
                 /\ Product_clean Catalogue.in_order fuel Catalogue.db
                      (Catalogue.lamp_moved_to 4)
                    = Raise IllegalCategoryChange)).
Proof.
  assert (well_formed Catalogue.db) as Hwf
    by (apply well_formedb_sound; reflexivity).
  split; [exact Hwf |]. split; [reflexivity |]. split; [reflexivity |].
  exact (category_change_only_to_descendant Catalogue.in_order Catalogue.db
           (Catalogue.lamp_moved_to 4) Catalogue.lamp 1
           Catalogue.electronics Catalogue.furniture
           Hwf eq_refl eq_refl eq_refl eq_refl).
Defined.

(** ** [Product.clean]: every characteristic has an attribute *)

Lemma set_of_In (l : list Characteristic) (c : Characteristic) :
  In c (set_of l) -> In c l.
Proof.
  induction l as [| x l IH]; simpl; [tauto |].
  destruct (existsb _ l); simpl; intuition.
Qed.

Lemma set_of_key (l : list Characteristic) (c : Characteristic) :
  In c l -> exists c', In c' (set_of l) /\ char_id c' = char_id c.
Proof.
  revert c. induction l as [| x l IH]; intros c; simpl; [tauto |].
  intros [-> | Hin].
  - destruct (existsb (fun d => Nat.eqb (char_id d) (char_id c)) l) eqn:E.
    + apply existsb_exists in E. destruct E as (d & Hd & Hk).
      apply Nat.eqb_eq in Hk. destruct (IH d Hd) as (c' & Hc' & Hk').
      exists c'. split; [exact Hc' | congruence].
    + exists c. split; [now left | reflexivity].
  - destruct (IH c Hin) as (c' & Hc' & Hk').
    exists c'. split; [| exact Hk'].
    destruct (existsb _ l); [exact Hc' | now right].
Qed.

Lemma same_key_same_characteristic (l : list Characteristic)
  (a b : Characteristic) :
  NoDup (map char_id l) -> In a l -> In b l -> char_id a = char_id b -> a = b.
Proof.
  induction l as [| x l IH]; simpl; [tauto |].
  intros Hnd Ha Hb Hk. inversion Hnd as [| k ks Hnot Hnd']; subst.
  destruct Ha as [-> | Ha], Hb as [-> | Hb].
  - reflexivity.
  - elim Hnot. rewrite Hk. now apply in_map.
  - elim Hnot. rewrite <- Hk. now apply in_map.
  - now apply IH.
Qed.

Lemma mapM_Ok_cons {A B : Type} (f : A -> result B) (x : A) (l : list A)
  (out : list B) :
  mapM f (x :: l) = Ok out ->
  exists y ys, f x = Ok y /\ mapM f l = Ok ys /\ out = y :: ys.
Proof.
  simpl. intros H. apply bind_Ok in H. destruct H as (y & Hy & H).
  apply bind_Ok in H. destruct H as (ys & Hys & H). injection H as <-.
  now exists y, ys.
Qed.

(** Every characteristic can be read exactly when every key resolves. *)
Lemma mapM_characteristic_Ok (db : DB) (l : list ProductAttribute) :
  (exists cs, mapM (characteristic db) l = Ok cs)
  <-> forall a, In a l -> resolves db a.
Proof.
  induction l as [| a l IH].
  - split; [intros _ x [] | intros _; now exists []].
  - split.
    + intros (cs & H) x Hx. apply mapM_Ok_cons in H.
      destruct H as (o & os & Ho & Hos & _).
      destruct Hx as [<- | Hx]; [| apply IH; eauto].
      intros k Hk. unfold characteristic in Ho. rewrite Hk in Ho.
      destruct (get_characteristic db k) as [c | | ]; try discriminate.
      now exists c.
    + intros Hall.
      destruct (proj2 IH (fun x Hx => Hall x (or_intror Hx))) as (cs & Hcs).
      simpl. rewrite Hcs.
      pose proof (Hall a (or_introl eq_refl)) as Ha.
      unfold resolves, characteristic in *.
      destruct (attr_characteristic a) as [k | ]; simpl; [| eauto].
      destruct (Ha k eq_refl) as (c & ->). simpl. eauto.
Qed.

(** The set built from the characteristics read holds a characteristic
    exactly when some attribute refers to its key. *)
Lemma in_set_mapM_characteristic (db : DB) (l : list ProductAttribute)
  (cs : list (option Characteristic)) (c : Characteristic) :
  mapM (characteristic db) l = Ok cs ->
  (in_set c cs = true
   <-> exists a, In a l /\ attr_characteristic a = Some (char_id c)).
Proof.
  revert cs. induction l as [| a l IH]; intros cs H.
  - injection H as <-. simpl. split; [discriminate | intros (a & [] & _)].
  - apply mapM_Ok_cons in H. destruct H as (o & os & Ho & Hos & ->).
    unfold in_set in *. simpl. rewrite orb_true_iff, (IH os Hos).
    assert ((match o with
             | Some d => Nat.eqb (char_id d) (char_id c)
             | None => false
             end = true) <-> attr_characteristic a = Some (char_id c)) as ->.
    { destruct o as [d | ].
      - apply characteristic_Some in Ho. destruct Ho as (k & Hk & Hg).
        apply get_characteristic_Ok in Hg. destruct Hg as (_ & <-).
        rewrite Hk, Nat.eqb_eq. split; congruence.
      - apply characteristic_None in Ho. rewrite Ho.
        split; discriminate. }
    split.
    + intros [H | (x & Hx & Hk)]; [exists a | exists x]; auto.
    + intros (x & [<- | Hx] & Hk); [now left | right; eauto].
Qed.

Lemma covered_in_set (db : DB) (p : Product)
  (cs : list (option Characteristic)) (c : Characteristic) :
  mapM (characteristic db) (_get_all_attributes db p) = Ok cs ->
  (in_set c cs = true <-> covered db p c).
Proof. apply in_set_mapM_characteristic. Qed.

(** The characteristics [Product.clean] finds without an attribute are
    those of [get_all_characteristics] that are not covered. *)
Lemma In_required_characteristics (db : DB) (p : Product)
  (chars : list Characteristic) (cs : list (option Characteristic))
  (c : Characteristic) :
  NoDup (map char_id (characteristics db)) ->
  (forall ch, In ch chars -> In ch (characteristics db)) ->
  mapM (characteristic db) (_get_all_attributes db p) = Ok cs ->
  (In c (filter (fun c => negb (in_set c cs)) (set_of chars))
   <-> In c chars /\ ~ covered db p c).
Proof.
  intros Hnd Hstored Hcs. rewrite filter_In, negb_true_iff.
  rewrite <- (covered_in_set db p cs c Hcs).
  destruct (in_set c cs).
  - split; intros (_ & H); [discriminate | now elim H].
  - split; intros (Hin & _).
    + split; [now apply set_of_In | discriminate].
    + split; [| reflexivity].
      destruct (set_of_key chars c Hin) as (c' & Hc' & Hk).
      assert (c' = c) as <-; [| exact Hc'].
      apply (same_key_same_characteristic (characteristics db));
        auto using set_of_In.
Qed.

(** C2 as stated fails: Radio passes [clean] although Voltage, a
    characteristic of its own category, has two attributes on it and not
    exactly one. *)
Lemma Product_clean_accepts_two_attributes :
  Product_clean Catalogue.in_order 3 Catalogue.db Catalogue.radio = Ok tt
  /\ get_category Catalogue.db (prod_category Catalogue.radio)
     = Ok Catalogue.electronics
  /\ In Catalogue.voltage
        (characteristics_of Catalogue.db Catalogue.electronics)
  /\ List.length
       (attributes_bound_to Catalogue.db Catalogue.radio Catalogue.voltage)
     = 2
  /\ List.length
       (attributes_bound_to Catalogue.db Catalogue.radio Catalogue.voltage)
     <> 1.
Proof.
  split; [reflexivity |]. split; [reflexivity |].
  split; [simpl; auto |]. split; [reflexivity | discriminate].
Qed.

(** C2, as the code has it.  Take a product whose category is stored in a
    well-formed tree, whose category check passes, and whose attributes
    (stored or predefined) refer to characteristics that can be fetched.
    A large enough budget makes [get_all_characteristics] return, and
    [Product.clean] succeeds exactly when every characteristic so returned
    is the characteristic of at least one attribute of the product.
    Otherwise it raises the missing-coverage error, whose message lists,
    in the order in which the set is iterated, the names of the returned
    characteristics that have no attribute. *)
Theorem Product_clean_coverage
  (order : list Characteristic -> list Characteristic) (db : DB)
  (self : Product) (category : Category) (fuel1 : nat) :
  permutes order ->
  well_formed db ->
  get_category db (prod_category self) = Ok category ->
  check_category_change fuel1 db self = Ok tt ->
  (forall a, In a (_get_all_attributes db self) -> resolves db a) ->
  exists fuel0, forall fuel, fuel0 <= fuel ->
    exists chars,
      get_all_characteristics fuel db category = Ok chars
      /\ (Product_clean order fuel db self = Ok tt
          <-> forall c, In c chars -> covered db self c)
      /\ (Product_clean order fuel db self = Ok tt
          \/ exists names,
               names <> []
               /\ Product_clean order fuel db self
                  = Raise (MissingCharacteristicCoverage names)
               /\ forall n, In n names
                            <-> exists c, In c chars /\ ~ covered db self c
                                          /\ char_name c = n).
Proof.
  intros Horder Hwf Hcat Hcheck Hresolve.
  destruct (get_category_Ok db _ _ Hcat) as (Hstored & _).
  destruct (get_all_characteristics_total db category Hwf Hstored)
    as (n & chars & Hchars).
  destruct (proj2 (mapM_characteristic_Ok db (_get_all_attributes db self))
              Hresolve) as (cs & Hcs).
  exists (Nat.max fuel1 n). intros fuel Hfuel.
  apply get_all_characteristics_mono with (m := fuel) in Hchars; [| lia].
  apply check_category_change_mono with (m := fuel) in Hcheck; [| lia].
  exists chars. split; [exact Hchars |].
  pose proof (fun c => In_required_characteristics db self chars cs c
                         (wf_characteristics db Hwf)
                         (fun ch => get_all_characteristics_stored fuel db
                                      category chars ch Hchars) Hcs) as Hreq.
  unfold Product_clean. rewrite Hcheck. simpl.
  unfold check_required_characteristics. rewrite Hcat. simpl.
  rewrite Hchars. simpl. rewrite Hcs. simpl.
  set (required := filter _ (set_of chars)) in *.
  destruct (qs_exists required) eqn:E.
  - apply qs_exists_true in E. destruct E as (c0 & Hc0).
    split.
    + split; [discriminate |]. intros Hall.
      apply Hreq in Hc0. destruct Hc0 as (Hin & Hnot).
      elim Hnot. now apply Hall.
    + right. exists (map char_name (order required)). split.
      * assert (In c0 (order required)) as Hin0
          by (apply (Permutation_in c0 (Permutation_sym (Horder required)));
              exact Hc0).
        destruct (order required); [destruct Hin0 | discriminate].
      * split; [reflexivity |]. intros name. rewrite in_map_iff. split.
        -- intros (c & Hname & Hc).
           apply (Permutation_in c (Horder required)) in Hc.
           apply Hreq in Hc. exists c. tauto.
        -- intros (c & Hin & Hnot & Hname). exists c.
           split; [exact Hname |].
           apply (Permutation_in c (Permutation_sym (Horder required))).
           apply Hreq. tauto.
  - split; [| now left]. split; [| reflexivity].
    intros _ c Hin.
    destruct (in_set c cs) eqn:Ec.
    + now apply (covered_in_set db self cs c Hcs).
    + assert (In c required) as Hc.
      { apply Hreq. split; [exact Hin |]. intros Hcov.
        apply (covered_in_set db self cs c Hcs) in Hcov. congruence. }
      assert (qs_exists required = true) as Hex
        by (apply qs_exists_true; eauto).
      congruence.
Qed.

Lemma Product_clean_coverage_witness :
  permutes Catalogue.in_order
  /\ well_formed Catalogue.db
  /\ check_category_change 2 Catalogue.db (Catalogue.lamp_moved_to 3) = Ok tt
  /\ _get_all_attributes Catalogue.db (Catalogue.lamp_moved_to 3)
     = [Catalogue.lamp_voltage; Catalogue.lamp_warranty]
  /\ Product_clean Catalogue.in_order 3 Catalogue.db
       (Catalogue.lamp_moved_to 3)
     = Raise (MissingCharacteristicCoverage ["Socket"])
  /\ Product_clean Catalogue.in_order 3 Catalogue.db Catalogue.lamp = Ok tt
  /\ exists fuel0, forall fuel, fuel0 <= fuel ->
       exists chars,
         get_all_characteristics fuel Catalogue.db Catalogue.led_lamps
         = Ok chars
         /\ (Product_clean Catalogue.in_order fuel Catalogue.db
               (Catalogue.lamp_moved_to 3) = Ok tt
             <-> forall c, In c chars ->
                           covered Catalogue.db (Catalogue.lamp_moved_to 3) c)
         /\ (Product_clean Catalogue.in_order fuel Catalogue.db
               (Catalogue.lamp_moved_to 3) = Ok tt
             \/ exists names,
                  names <> []
                  /\ Product_clean Catalogue.in_order fuel Catalogue.db
                       (Catalogue.lamp_moved_to 3)
                     = Raise (MissingCharacteristicCoverage names)
                  /\ forall n, In n names
                               <-> exists c,
                                     In c chars
                                     /\ ~ covered Catalogue.db
                                            (Catalogue.lamp_moved_to 3) c
                                     /\ char_name c = n).
Proof.
  assert (permutes Catalogue.in_order) as Horder
    by (intros l; apply Permutation_refl).
  assert (well_formed Catalogue.db) as Hwf
    by (apply well_formedb_sound; reflexivity).
  split; [exact Horder |]. split; [exact Hwf |].
  split; [reflexivity |]. split; [reflexivity |].
  split; [reflexivity |]. split; [reflexivity |].
  apply (Product_clean_coverage Catalogue.in_order Catalogue.db
           (Catalogue.lamp_moved_to 3) Catalogue.led_lamps 2 Horder Hwf
           eq_refl eq_refl).
  intros a [<- | [<- | []]] k Hk; injection Hk as <-.
  - now exists Catalogue.voltage.
  - now exists Catalogue.warranty.
Defined.

(** * Further properties of the tree walks *)

(** The ancestors of an ancestor are the rest of the walk after it. *)
Lemma get_ancestors_split (db : DB) (n : nat) (c a : Category)
  (l : list Category) :
  get_ancestors n db c = Ok l -> In a l ->
  exists before after,
    l = before ++ a :: after /\ get_ancestors n db a = Ok after.
Proof.
  revert c l. induction n as [| n IH]; intros c l H Hin; [discriminate |].
  apply get_ancestors_S in H.
  destruct H as [(_ & ->) | (p & rest & Hp & Hrest & ->)]; [destruct Hin |].
  destruct Hin as [<- | Hin].
  - exists [], rest. split; [reflexivity |].
    apply get_ancestors_mono with (n := n); [exact Hrest | lia].
  - destruct (IH p rest Hrest Hin) as (before & after & -> & Hafter).
    exists (p :: before), after. split; [reflexivity |].
    apply get_ancestors_mono with (n := n); [exact Hafter | lia].
Qed.

Lemma get_ancestors_NoDup (db : DB) (n : nat) (c : Category)
  (l : list Category) :
  get_ancestors n db c = Ok l -> NoDup l.
Proof.
  revert c l. induction n as [| n IH]; intros c l H; [discriminate |].
  apply get_ancestors_S in H.
  destruct H as [(_ & ->) | (p & rest & _ & Hrest & ->)]; constructor.
  - now apply (not_own_ancestor db n p rest).
  - now apply (IH p rest).
Qed.

Lemma last_cons_default {A : Type} (x : A) (l : list A) (d d' : A) :
  last (x :: l) d = last (x :: l) d'.
Proof.
  revert x. induction l as [| y l IH]; intros x; [reflexivity |].
  change (last (y :: l) d = last (y :: l) d'). apply IH.
Qed.

Lemma get_ancestors_last (db : DB) (n : nat) (c : Category)
  (l : list Category) :
  get_ancestors n db c = Ok l -> cat_parent (last l c) = None.
Proof.
  revert c l. induction n as [| n IH]; intros c l H; [discriminate |].
  apply get_ancestors_S in H.
  destruct H as [(Hp & ->) | (p & rest & _ & Hrest & ->)].
  - now apply parent_Ok_None in Hp.
  - specialize (IH p rest Hrest).
    destruct rest as [| q rest]; [exact IH |].
    change (cat_parent (last (q :: rest) c) = None).
    now rewrite (last_cons_default q rest c p).
Qed.

Lemma get_ancestors_least_fuel (db : DB) (n : nat) (c : Category)
  (l : list Category) :
  get_ancestors n db c = Ok l -> get_ancestors (S (List.length l)) db c = Ok l.
Proof.
  revert c l. induction n as [| n IH]; intros c l H; [discriminate |].
  apply get_ancestors_S in H.
  destruct H as [(Hp & ->) | (p & rest & Hp & Hrest & ->)].
  - simpl. now rewrite Hp.
  - change (get_ancestors (S (S (List.length rest))) db c = Ok (p :: rest)).
    simpl. rewrite Hp. simpl.
    apply IH in Hrest. simpl in Hrest. now rewrite Hrest.
Qed.

Lemma get_ancestors_within_table (db : DB) (c : Category) :
  well_formed db -> In c (categories db) ->
  exists l, get_ancestors (List.length (categories db)) db c = Ok l.
Proof.
  intros Hwf Hc.
  destruct (rooted_get_ancestors db c (wf_rooted db Hwf c Hc))
    as (n & l & H).
  exists l.
  apply get_ancestors_mono with (n := S (List.length l));
    [now apply get_ancestors_least_fuel with (n := n) |].
  change (List.length (c :: l) <= List.length (categories db)).
  apply NoDup_incl_length.
  - constructor; [now apply (not_own_ancestor db n) |].
    now apply (get_ancestors_NoDup db n c).
  - intros x [<- | Hx]; [exact Hc |].
    now apply (get_ancestors_stored db n c x l).
Qed.

(** A budget that is enough for the ancestors of every stored category is
    enough for the descendants of every stored category. *)
Lemma get_descendants_within (db : DB) (depth : nat) :
  well_formed db ->
  (forall c, In c (categories db) ->
             exists l, get_ancestors depth db c = Ok l) ->
  forall c, In c (categories db) ->
            exists l, get_descendants depth db c = Ok l.
Proof.
  intros Hwf Hdepth.
  assert (forall k c la,
             In c (categories db) ->
             get_ancestors depth db c = Ok la ->
             depth <= List.length la + k ->
             exists l, get_descendants k db c = Ok l) as Hk.
  { induction k as [| k IH]; intros c la Hc Hla Hle.
    - apply get_ancestors_length in Hla. lia.
    - simpl. apply concat_mapM_total. intros child Hchild.
      assert (In child (categories db)) as Hstored
        by (now apply In_children in Hchild).
      destruct (Hdepth child Hstored) as (lc & Hlc).
      pose proof (child_get_ancestors db depth c child la Hwf Hc Hchild Hla)
        as Hca.
      pose proof (get_ancestors_det db _ _ child _ _ Hlc Hca) as ->.
      destruct (IH child (c :: la) Hstored Hlc) as (below & ->);
        [simpl; lia |].
      simpl. now exists (child :: below). }
  intros c Hc. destruct (Hdepth c Hc) as (la & Hla).
  apply (Hk depth c la Hc Hla). lia.
Qed.

(** X1.  Whenever the walk up from a category ends, it has visited stored
    categories only, each of them once, the last one is a root (the
    category itself when it has no ancestors), and the walk is no longer
    than the category table. *)
Theorem get_ancestors_walk (db : DB) (fuel : nat) (c : Category)
  (ancestors : list Category) :
  get_ancestors fuel db c = Ok ancestors ->
  NoDup ancestors
  /\ (forall a, In a ancestors -> In a (categories db))
  /\ cat_parent (last ancestors c) = None
  /\ List.length ancestors <= List.length (categories db).
Proof.
  intros H.
  pose proof (get_ancestors_NoDup db fuel c ancestors H) as Hnd.
  assert (forall a, In a ancestors -> In a (categories db)) as Hstored
    by (intros a; apply (get_ancestors_stored db fuel c a ancestors H)).
  split; [exact Hnd |]. split; [exact Hstored |].
  split; [now apply (get_ancestors_last db fuel) |].
  now apply NoDup_incl_length.
Qed.

Lemma get_ancestors_walk_witness :
  get_ancestors 3 Catalogue.db Catalogue.led_lamps
  = Ok [Catalogue.electronics; Catalogue.root]
  /\ NoDup [Catalogue.electronics; Catalogue.root]
  /\ cat_parent
       (last [Catalogue.electronics; Catalogue.root] Catalogue.led_lamps)
     = None.
Proof.
  split; [reflexivity |].
  destruct (get_ancestors_walk Catalogue.db 3 Catalogue.led_lamps
              [Catalogue.electronics; Catalogue.root] eq_refl)
    as (Hnd & _ & Hlast & _).
  split; [exact Hnd | exact Hlast].
Defined.

(** X2.  In a well-formed tree both walks from a stored category end
    within a budget equal to the number of stored categories. *)
Theorem walks_end_within_table_size (db : DB) (c : Category) :
  well_formed db ->
  In c (categories db) ->
  exists ancestors descendants,
    get_ancestors (List.length (categories db)) db c = Ok ancestors
    /\ get_descendants (List.length (categories db)) db c = Ok descendants.
Proof.
  intros Hwf Hc.
  destruct (get_ancestors_within_table db c Hwf Hc) as (la & Hla).
  destruct (get_descendants_within db (List.length (categories db)) Hwf
              (fun c' Hc' => get_ancestors_within_table db c' Hwf Hc') c Hc)
    as (ld & Hld).
  now exists la, ld.
Qed.

Lemma walks_end_within_table_size_witness :
  well_formed Catalogue.db
  /\ In Catalogue.root (categories Catalogue.db)
  /\ exists ancestors descendants,
       get_ancestors 4 Catalogue.db Catalogue.root = Ok ancestors
       /\ get_descendants 4 Catalogue.db Catalogue.root = Ok descendants.
Proof.
  assert (well_formed Catalogue.db) as Hwf
    by (apply well_formedb_sound; reflexivity).
  assert (In Catalogue.root (categories Catalogue.db)) as Hin
    by (simpl; auto).
  split; [exact Hwf |]. split; [exact Hin |].
  exact (walks_end_within_table_size Catalogue.db Catalogue.root Hwf Hin).
Defined.

Lemma concat_mapM_each {A B : Type} (f : A -> result (list B)) (l : list A)
  (out : list B) (x : A) :
  concat_mapM f l = Ok out -> In x l -> exists ys, f x = Ok ys.
Proof.
  revert out. induction l as [| y l IH]; simpl; intros out H Hin;
    [destruct Hin |].
  apply bind_Ok in H. destruct H as (ys & Hy & H).
  apply bind_Ok in H. destruct H as (zs & Hl & _).
  destruct Hin as [<- | Hin]; [now exists ys | now apply (IH zs)].
Qed.

(** A child of the category is among its descendants. *)
Lemma children_get_descendants (db : DB) (n : nat) (c d : Category)
  (l : list Category) :
  get_descendants n db c = Ok l -> In d (children db c) -> In d l.
Proof.
  destruct n as [| n]; [discriminate |]. intros H Hd.
  apply (get_descendants_In n db c d l H).
  simpl in H. destruct (concat_mapM_each _ _ l d H Hd) as (ys & Hys).
  apply bind_Ok in Hys. destruct Hys as (below & Hbelow & _).
  exists d, below. auto.
Qed.

(** The descendants are closed under taking children. *)
Lemma get_descendants_closed (db : DB) (n : nat) (a p d : Category)
  (l : list Category) :
  get_descendants n db a = Ok l -> In p l -> In d (children db p) -> In d l.
Proof.
  revert a l. induction n as [| n IH]; intros a l H Hp Hd; [discriminate |].
  pose proof H as Hin.
  apply (get_descendants_In n db a p l) in Hp; [| exact H].
  destruct Hp as (child & below & Hchild & Hbelow & Hp).
  apply (get_descendants_In n db a d l H).
  exists child, below. split; [exact Hchild |]. split; [exact Hbelow |].
  right. destruct Hp as [-> | Hp].
  - now apply (children_get_descendants db n child d below).
  - now apply (IH child below).
Qed.

Lemma ancestor_then_descendant (db : DB) (n m : nat) (a d : Category)
  (la ld : list Category) :
  In d (categories db) ->
  get_ancestors n db d = Ok la -> get_descendants m db a = Ok ld ->
  In a la -> In d ld.
Proof.
  revert d la. induction n as [| n IH]; intros d la Hd Hla Hld Ha;
    [discriminate |].
  apply get_ancestors_S in Hla.
  destruct Hla as [(_ & ->) | (p & rest & Hp & Hrest & ->)]; [destruct Ha |].
  apply parent_Ok_Some in Hp. destruct Hp as (pid & Hpid & Hg).
  apply get_category_Ok in Hg. destruct Hg as (Hstored & Hk).
  assert (In d (children db p)) as Hchild
    by (apply In_children; split; [exact Hd | now exists pid]).
  destruct Ha as [<- | Ha].
  - now apply (children_get_descendants db m p d ld).
  - apply (get_descendants_closed db m a p d ld Hld); [| exact Hchild].
    now apply (IH p rest).
Qed.

Lemma descendant_then_ancestor (db : DB) (n m : nat) (a d : Category)
  (la ld : list Category) :
  well_formed db -> In a (categories db) ->
  get_ancestors n db d = Ok la -> get_descendants m db a = Ok ld ->
  In d ld -> In a la.
Proof.
  intros Hwf. revert a d la ld.
  induction m as [| m IH]; intros a d la ld Ha Hla Hld Hd; [discriminate |].
  apply (get_descendants_In m db a d ld Hld) in Hd.
  destruct Hd as (child & below & Hchild & Hbelow & Hd).
  destruct (rooted_get_ancestors db a (wf_rooted db Hwf a Ha))
    as (k & laa & Hlaa).
  pose proof (child_get_ancestors db k a child laa Hwf Ha Hchild Hlaa)
    as Hca.
  destruct Hd as [-> | Hd].
  - rewrite (get_ancestors_det db n (S k) child la (a :: laa) Hla Hca).
    now left.
  - assert (In child (categories db)) as Hstored
      by (now apply In_children in Hchild).
    pose proof (IH child d la below Hstored Hla Hbelow Hd) as Hin.
    destruct (get_ancestors_split db n d child la Hla Hin)
      as (before & after & -> & Hafter).
    rewrite (get_ancestors_det db n (S k) child after (a :: laa) Hafter Hca).
    apply in_or_app. right. right. now left.
Qed.

(** X3.  The two walks are inverse to each other: in a well-formed tree, a
    stored category [d] is among the descendants of a stored category [a]
    exactly when [a] is among the ancestors of [d]. *)
Theorem descendant_iff_ancestor (db : DB) (n m : nat) (a d : Category)
  (ancestors descendants : list Category) :
  well_formed db ->
  In a (categories db) ->
  In d (categories db) ->
  get_ancestors n db d = Ok ancestors ->
  get_descendants m db a = Ok descendants ->
  (In d descendants <-> In a ancestors).
Proof.
  intros Hwf Ha Hd Hla Hld. split.
  - now apply (descendant_then_ancestor db n m a d ancestors descendants).
  - now apply (ancestor_then_descendant db n m a d ancestors descendants).
Qed.

Lemma descendant_iff_ancestor_witness :
  well_formed Catalogue.db
  /\ get_ancestors 3 Catalogue.db Catalogue.led_lamps
     = Ok [Catalogue.electronics; Catalogue.root]
  /\ get_descendants 3 Catalogue.db Catalogue.root
     = Ok [Catalogue.electronics; Catalogue.led_lamps; Catalogue.furniture]
  /\ (In Catalogue.led_lamps
         [Catalogue.electronics; Catalogue.led_lamps; Catalogue.furniture]
      <-> In Catalogue.root [Catalogue.electronics; Catalogue.root]).
Proof.
  assert (well_formed Catalogue.db) as Hwf
    by (apply well_formedb_sound; reflexivity).
  split; [exact Hwf |]. split; [reflexivity |]. split; [reflexivity |].
  apply (descendant_iff_ancestor Catalogue.db 3 3 Catalogue.root
           Catalogue.led_lamps _ _ Hwf); try reflexivity; simpl; auto.
Defined.

Lemma NoDup_insert_by (key : Category -> nat) (x : Category)
  (l : list Category) :
  NoDup l -> ~ In x l -> NoDup (insert_by key x l).
Proof.
  induction l as [| y l IH]; simpl; intros Hnd Hx.
  - constructor; [tauto | constructor].
  - destruct (Nat.leb (key x) (key y)).
    + constructor; [exact Hx | exact Hnd].
    + inversion Hnd as [| y' l' Hy Hl]; subst.
      constructor.
      * rewrite In_insert_by. intros [-> | H]; [| contradiction].
        apply Hx. now left.
      * apply IH; [exact Hl |]. intros H. apply Hx. now right.
Qed.

Lemma NoDup_order_by (key : Category -> nat) (l : list Category) :
  NoDup l -> NoDup (order_by key l).
Proof.
  unfold order_by. induction l as [| x l IH]; simpl; intros Hnd;
    [constructor |].
  inversion Hnd as [| x' l' Hx Hl]; subst.
  apply NoDup_insert_by; [now apply IH |].
  intros H. apply Hx. now apply (In_order_by key x l).
Qed.

Lemma NoDup_children (db : DB) (c : Category) :
  well_formed db -> NoDup (children db c).
Proof.
  intros Hwf. unfold children. destruct (cat_id c); [| constructor].
  apply NoDup_filter. apply NoDup_order_by.
  exact (NoDup_map_inv cat_id (categories db) (wf_unique db Hwf)).
Qed.

Lemma NoDup_concat_mapM {A B : Type} (f : A -> result (list B))
  (l : list A) (out : list B) :
  NoDup l ->
  (forall x ys, In x l -> f x = Ok ys -> NoDup ys) ->
  (forall x x' ys ys' y,
      In x l -> In x' l -> f x = Ok ys -> f x' = Ok ys' ->
      In y ys -> In y ys' -> x = x') ->
  concat_mapM f l = Ok out -> NoDup out.
Proof.
  revert out. induction l as [| x l IH]; simpl; intros out Hnd Hblock Hdisj H.
  - injection H as <-. constructor.
  - apply bind_Ok in H. destruct H as (ys & Hx & H).
    apply bind_Ok in H. destruct H as (zs & Hl & H). injection H as <-.
    inversion Hnd as [| x' l' Hnot Hnd']; subst.
    apply NoDup_app.
    + apply (Hblock x ys); auto.
    + apply (IH zs); auto.
      * intros x' ys' Hin. apply Hblock. now right.
      * intros x1 x2 ys1 ys2 y H1 H2. apply Hdisj; now right.
    + intros y Hy Hz.
      apply (concat_mapM_In f l zs y Hl) in Hz.
      destruct Hz as (x' & ys' & Hin & Hf & Hy').
      assert (x = x') as -> by
          (apply (Hdisj x x' ys ys' y); auto).
      contradiction.
Qed.

(** Two children of one category have no descendant in common, and
    neither is a descendant of the other. *)
Lemma subtrees_disjoint (db : DB) (n : nat) (a c1 c2 x : Category)
  (b1 b2 : list Category) :
  well_formed db -> In a (categories db) ->
  In c1 (children db a) -> In c2 (children db a) ->
  get_descendants n db c1 = Ok b1 -> get_descendants n db c2 = Ok b2 ->
  In x (c1 :: b1) -> In x (c2 :: b2) -> c1 = c2.
Proof.
  intros Hwf Ha H1 H2 Hb1 Hb2 Hx1 Hx2.
  destruct (rooted_get_ancestors db a (wf_rooted db Hwf a Ha))
    as (k & la & Hla).
  pose proof (child_get_ancestors db k a c1 la Hwf Ha H1 Hla) as Ha1.
  pose proof (child_get_ancestors db k a c2 la Hwf Ha H2 Hla) as Ha2.
  assert (In c1 (categories db)) as Hs1 by (now apply In_children in H1).
  assert (In c2 (categories db)) as Hs2 by (now apply In_children in H2).
  destruct Hx1 as [<- | Hx1], Hx2 as [Hx2 | Hx2].
  - now symmetry.
  - destruct (get_descendants_deeper db n (S k) c2 c1 b2 (a :: la) Hwf Hs2
                Hb2 Hx2 Ha2) as (k' & l' & Hl' & Hlen).
    rewrite (get_ancestors_det db k' (S k) c1 l' (a :: la) Hl' Ha1) in Hlen.
    lia.
  - subst x.
    destruct (get_descendants_deeper db n (S k) c1 c2 b1 (a :: la) Hwf Hs1
                Hb1 Hx1 Ha1) as (k' & l' & Hl' & Hlen).
    rewrite (get_ancestors_det db k' (S k) c2 l' (a :: la) Hl' Ha2) in Hlen.
    lia.
  - assert (In x (categories db)) as Hsx
      by (now apply (get_descendants_stored db n c1 x b1)).
    destruct (rooted_get_ancestors db x (wf_rooted db Hwf x Hsx))
      as (j & lx & Hlx).
    pose proof (descendant_then_ancestor db j n c1 x lx b1 Hwf Hs1 Hlx Hb1
                  Hx1) as Hin1.
    pose proof (descendant_then_ancestor db j n c2 x lx b2 Hwf Hs2 Hlx Hb2
                  Hx2) as Hin2.
    destruct (get_ancestors_split db j x c1 lx Hlx Hin1)
      as (pre1 & post1 & E1 & Hp1).
    destruct (get_ancestors_split db j x c2 lx Hlx Hin2)
      as (pre2 & post2 & E2 & Hp2).
    rewrite (get_ancestors_det db j (S k) c1 post1 (a :: la) Hp1 Ha1) in E1.
    rewrite (get_ancestors_det db j (S k) c2 post2 (a :: la) Hp2 Ha2) in E2.
    rewrite E1 in E2.
    change (pre1 ++ [c1] ++ a :: la = pre2 ++ [c2] ++ a :: la) in E2.
    rewrite !app_assoc in E2. apply app_inv_tail in E2.
    now apply app_inj_tail in E2.
Qed.

Lemma get_descendants_NoDup (db : DB) (n : nat) (c : Category)
  (l : list Category) :
  well_formed db -> In c (categories db) ->
  get_descendants n db c = Ok l -> NoDup l.
Proof.
  intros Hwf. revert c l.
  induction n as [| n IH]; intros c l Hc H; [discriminate |].
  simpl in H.
  eapply NoDup_concat_mapM; [apply (NoDup_children db c Hwf) | | | exact H].
  - intros child ys Hchild Hf.
    apply bind_Ok in Hf. destruct Hf as (below & Hbelow & Hf).
    injection Hf as <-.
    assert (In child (categories db)) as Hs
      by (now apply In_children in Hchild).
    constructor; [| now apply (IH child)].
    now apply (not_own_descendant db n child below).
  - intros c1 c2 ys1 ys2 x H1 H2 Hf1 Hf2 Hx1 Hx2.
    apply bind_Ok in Hf1. destruct Hf1 as (b1 & Hb1 & Hf1).
    apply bind_Ok in Hf2. destruct Hf2 as (b2 & Hb2 & Hf2).
    injection Hf1 as <-. injection Hf2 as <-.
    now apply (subtrees_disjoint db n c c1 c2 x b1 b2).
Qed.

(** X4.  In a well-formed tree the walk down from a stored category yields
    stored categories only and yields none of them twice. *)
Theorem get_descendants_each_once (db : DB) (fuel : nat) (c : Category)
  (descendants : list Category) :
  well_formed db ->
  In c (categories db) ->
  get_descendants fuel db c = Ok descendants ->
  NoDup descendants
  /\ (forall d, In d descendants -> In d (categories db))
  /\ List.length descendants < List.length (categories db).
Proof.
  intros Hwf Hc H.
  pose proof (get_descendants_NoDup db fuel c descendants Hwf Hc H) as Hnd.
  split; [exact Hnd |]. split.
  - intros d. now apply (get_descendants_stored db fuel c d descendants).
  - change (List.length (c :: descendants) <= List.length (categories db)).
    apply NoDup_incl_length.
    + constructor; [| exact Hnd].
      now apply (not_own_descendant db fuel c descendants).
    + intros x [<- | Hx]; [exact Hc |].
      now apply (get_descendants_stored db fuel c x descendants).
Qed.

Lemma get_descendants_each_once_witness :
  well_formed Catalogue.db
  /\ get_descendants 3 Catalogue.db Catalogue.root
     = Ok [Catalogue.electronics; Catalogue.led_lamps; Catalogue.furniture]
  /\ NoDup [Catalogue.electronics; Catalogue.led_lamps; Catalogue.furniture].
Proof.
  assert (well_formed Catalogue.db) as Hwf
    by (apply well_formedb_sound; reflexivity).
  split; [exact Hwf |]. split; [reflexivity |].
  apply (get_descendants_each_once Catalogue.db 3 Catalogue.root _ Hwf);
    [simpl; auto | reflexivity].
Defined.

(** * Further properties of [Product.clean] *)

Lemma get_ancestors_same_parent (db : DB) (n : nat) (a b : Category) :
  cat_parent a = cat_parent b -> get_ancestors n db a = get_ancestors n db b.
Proof.
  intros H. destruct n as [| n]; [reflexivity |].
  simpl. unfold parent. now rewrite H.
Qed.

Lemma Product_clean_refuses
  (order : list Characteristic -> list Characteristic) (db : DB) (fuel : nat)
  (self stored : Product) (i : nat) (previous category : Category)
  (ds : list Category) :
  well_formed db ->
  prod_id self = Some i ->
  get_product db i = Ok stored ->
  get_category db (prod_category stored) = Ok previous ->
  get_category db (prod_category self) = Ok category ->
  get_descendants fuel db previous = Ok ds ->
  category <> previous -> ~ In category ds ->
  Product_clean order fuel db self = Raise IllegalCategoryChange.
Proof.
  intros Hwf Hid Hstored Hprev Hcat Hds Hne Hnot.
  destruct (get_category_Ok db _ _ Hprev) as (Hp & _).
  destruct (get_category_Ok db _ _ Hcat) as (Hc & _).
  unfold Product_clean, check_category_change.
  rewrite Hid, Hstored. simpl. rewrite Hprev. simpl. rewrite Hcat. simpl.
  destruct (model_eqb (cat_id previous) (cat_id category)) eqn:E.
  - apply (model_eqb_stored db previous category Hwf Hp Hc) in E.
    now elim Hne.
  - simpl. rewrite Hds. simpl.
    destruct (existsb _ ds) eqn:Ex; [| reflexivity].
    apply (In_descendants_by_key db fuel previous category ds Hwf Hc Hds)
      in Ex. contradiction.
Qed.

(** X5.  A stored product cannot be moved up or sideways: when the new
    category is an ancestor of the stored category, or one of its
    siblings, [Product.clean] raises the illegal-category-change error. *)
Theorem move_up_or_sideways_refused
  (order : list Characteristic -> list Characteristic) (db : DB)
  (self stored : Product) (i n : nat) (previous category : Category)
  (ancestors : list Category) :
  well_formed db ->
  prod_id self = Some i ->
  get_product db i = Ok stored ->
  get_category db (prod_category stored) = Ok previous ->
  get_category db (prod_category self) = Ok category ->
  get_ancestors n db previous = Ok ancestors ->
  In category ancestors \/ is_sibling category previous ->
  exists fuel0, forall fuel, fuel0 <= fuel ->
    Product_clean order fuel db self = Raise IllegalCategoryChange.
Proof.
  intros Hwf Hid Hstored Hprev Hcat Hla Hcase.
  destruct (get_category_Ok db _ _ Hprev) as (Hp & Hpk).
  destruct (get_category_Ok db _ _ Hcat) as (Hc & _).
  destruct (get_descendants_total db Hwf) as (m & Hm).
  exists m. intros fuel Hfuel.
  destruct (Hm previous Hp) as (ds & Hds).
  apply get_descendants_mono with (m := fuel) in Hds; [| exact Hfuel].
  apply (Product_clean_refuses order db fuel self stored i previous category ds);
    try assumption.
  - destruct Hcase as [Hin | (_ & Hkey)].
    + intros ->. now apply (not_own_ancestor db n previous ancestors).
    + intros ->. now apply (Hkey (prod_category stored)).
  - intros Hin.
    destruct (get_descendants_deeper db fuel n previous category ds ancestors
                Hwf Hp Hds Hin Hla) as (k & lc & Hlc & Hlen).
    destruct Hcase as [Hup | (Hparent & _)].
    + destruct (get_ancestors_shorter db n previous category ancestors Hla
                  Hup) as (l' & Hl' & Hshort).
      rewrite (get_ancestors_det db n k category l' lc Hl' Hlc) in Hshort.
      lia.
    + rewrite (get_ancestors_same_parent db k category previous Hparent)
        in Hlc.
      rewrite (get_ancestors_det db k n previous lc ancestors Hlc Hla)
        in Hlen.
      lia.
Qed.

Lemma move_up_or_sideways_refused_witness :
  well_formed Catalogue.db
  /\ is_sibling Catalogue.furniture Catalogue.electronics
  /\ exists fuel0, forall fuel, fuel0 <= fuel ->
       Product_clean Catalogue.in_order fuel Catalogue.db (Catalogue.lamp_moved_to 4)
       = Raise IllegalCategoryChange.
Proof.
  assert (well_formed Catalogue.db) as Hwf
    by (apply well_formedb_sound; reflexivity).
  assert (is_sibling Catalogue.furniture Catalogue.electronics) as Hsib
    by (split; [reflexivity | intros i H; injection H as <-; discriminate]).
  split; [exact Hwf |]. split; [exact Hsib |].
  exact (move_up_or_sideways_refused Catalogue.in_order Catalogue.db (Catalogue.lamp_moved_to 4)
           Catalogue.lamp 1 2 Catalogue.electronics Catalogue.furniture
           [Catalogue.root] Hwf eq_refl eq_refl eq_refl eq_refl eq_refl
           (or_intror Hsib)).
Defined.

Lemma Product_clean_Ok (order : list Characteristic -> list Characteristic)
  (fuel : nat) (db : DB) (self : Product) :
  Product_clean order fuel db self = Ok tt
  <-> check_category_change fuel db self = Ok tt
      /\ check_required_characteristics order fuel db self = Ok tt.
Proof.
  unfold Product_clean.
  destruct (check_category_change fuel db self) as [[] | e | ]; simpl;
    split; intros H; try discriminate; try tauto;
    destruct H as (H & _); discriminate.
Qed.

Lemma filter_none_weaker {A : Type} (f g : A -> bool) (l : list A) :
  (forall x, g x = true -> f x = true) ->
  qs_exists (filter f l) = false -> qs_exists (filter g l) = false.
Proof.
  intros Hgf Hf.
  destruct (qs_exists (filter g l)) eqn:E; [| reflexivity].
  apply qs_exists_true in E. destruct E as (x & Hx).
  apply filter_In in Hx. destruct Hx as (Hin & Hg).
  assert (qs_exists (filter f l) = true) as Hex; [| congruence].
  apply qs_exists_true. exists x. apply filter_In. auto.
Qed.

(** The second half of [Product.clean] succeeds exactly when the category
    and its characteristics can be read, the characteristic of every
    attribute can be fetched, and every characteristic in the set is
    covered. *)
Lemma check_required_characteristics_Ok
  (order : list Characteristic -> list Characteristic) (fuel : nat) (db : DB)
  (self : Product) :
  check_required_characteristics order fuel db self = Ok tt
  <-> exists category chars,
        get_category db (prod_category self) = Ok category
        /\ get_all_characteristics fuel db category = Ok chars
        /\ (forall a, In a (_get_all_attributes db self) -> resolves db a)
        /\ (forall c, In c (set_of chars) -> covered db self c).
Proof.
  unfold check_required_characteristics. split.
  - intros H.
    destruct (get_category db (prod_category self)) as [category | | ]
      eqn:Hcat; simpl in H; try discriminate.
    destruct (get_all_characteristics fuel db category) as [chars | | ]
      eqn:Hchars; simpl in H; try discriminate.
    destruct (mapM (characteristic db) (_get_all_attributes db self))
      as [cs | | ] eqn:Hcs; simpl in H; try discriminate.
    exists category, chars. split; [reflexivity |]. split; [exact Hchars |].
    split; [apply mapM_characteristic_Ok; eauto |].
    intros c Hc. apply (covered_in_set db self cs c Hcs).
    destruct (in_set c cs) eqn:E; [reflexivity |].
    assert (qs_exists (filter (fun c => negb (in_set c cs)) (set_of chars))
            = true) as Hex.
    { apply qs_exists_true. exists c. apply filter_In.
      split; [exact Hc | now rewrite E]. }
    rewrite Hex in H. discriminate.
  - intros (category & chars & -> & Hchars & Hres & Hcov). simpl.
    rewrite Hchars. simpl.
    destruct (proj2 (mapM_characteristic_Ok db _) Hres) as (cs & Hcs).
    rewrite Hcs. simpl.
    destruct (qs_exists (filter (fun c => negb (in_set c cs)) (set_of chars)))
      eqn:E; [| reflexivity].
    apply qs_exists_true in E. destruct E as (c & Hc).
    apply filter_In in Hc. destruct Hc as (Hin & Hno).
    apply negb_true_iff in Hno.
    apply Hcov, (covered_in_set db self cs c Hcs) in Hin. congruence.
Qed.

(** X6.  Attributes never hurt validation: a product that passes
    [Product.clean] still passes it after any attributes, bound or
    free-form, are added to its predefined attributes, provided the
    characteristics that the added attributes refer to can be fetched. *)
Theorem Product_clean_more_attributes
  (order : list Characteristic -> list Characteristic) (fuel : nat) (db : DB)
  (self : Product) (extra : list ProductAttribute) :
  (forall a, In a extra -> resolves db a) ->
  Product_clean order fuel db self = Ok tt ->
  Product_clean order fuel db (with_more_attributes self extra) = Ok tt.
Proof.
  intros Hextra. rewrite !Product_clean_Ok. intros (Hchange & Hreq).
  split; [exact Hchange |].
  apply check_required_characteristics_Ok in Hreq.
  destruct Hreq as (category & chars & Hcat & Hchars & Hres & Hcov).
  apply check_required_characteristics_Ok.
  exists category, chars. split; [exact Hcat |]. split; [exact Hchars |].
  assert (forall a, In a (_get_all_attributes db
                            (with_more_attributes self extra))
                    <-> In a (_get_all_attributes db self) \/ In a extra)
    as Hatts.
  { intros a. unfold _get_all_attributes, with_more_attributes. simpl.
    change (attributes_of db (set_predefined_attributes self _))
      with (attributes_of db self).
    rewrite !in_app_iff. tauto. }
  split.
  - intros a Ha. apply Hatts in Ha. destruct Ha as [Ha | Ha]; auto.
  - intros c Hc. destruct (Hcov c Hc) as (a & Ha & Hk).
    exists a. split; [apply Hatts; now left | exact Hk].
Qed.

Lemma Product_clean_more_attributes_witness :
  (forall a, In a [Catalogue.anonymous; Catalogue.bound 3 "E27"] ->
             resolves Catalogue.db a)
  /\ Product_clean Catalogue.in_order 3 Catalogue.db Catalogue.radio = Ok tt
  /\ Product_clean Catalogue.in_order 3 Catalogue.db
       (with_more_attributes Catalogue.radio
          [Catalogue.anonymous; Catalogue.bound 3 "E27"]) = Ok tt.
Proof.
  assert (forall a, In a [Catalogue.anonymous; Catalogue.bound 3 "E27"] ->
                    resolves Catalogue.db a) as Hres.
  { intros a [<- | [<- | []]] k Hk; [discriminate |].
    injection Hk as <-. now exists Catalogue.socket. }
  split; [exact Hres |]. split; [reflexivity |].
  exact (Product_clean_more_attributes Catalogue.in_order 3 Catalogue.db
           Catalogue.radio [Catalogue.anonymous; Catalogue.bound 3 "E27"]
           Hres eq_refl).
Defined.

(** * Further properties of [get_all_characteristics] and [get_products] *)

(** X7.  Whatever [get_all_characteristics] returns is owned by the
    category itself or by one of its ancestors; it returns every
    characteristic of the category and every characteristic of its
    parent; and for a category without a parent it returns exactly the
    category's own characteristics. *)
Theorem get_all_characteristics_inherited (fuel : nat) (db : DB)
  (c : Category) (chars : list Characteristic) :
  get_all_characteristics fuel db c = Ok chars ->
  exists ancestors,
    get_ancestors fuel db c = Ok ancestors
    /\ (forall ch, In ch chars ->
          In ch (characteristics_of db c)
          \/ exists a, In a ancestors /\ In ch (characteristics_of db a))
    /\ (forall ch, In ch (characteristics_of db c) -> In ch chars)
    /\ (forall p ch, parent db c = Ok (Some p) ->
          In ch (characteristics_of db p) -> In ch chars)
    /\ (cat_parent c = None -> chars = characteristics_of db c).
Proof.
  intros H. pose proof H as H'. unfold get_all_characteristics in H'.
  apply bind_Ok in H'. destruct H' as (ancestors & Hanc & _).
  rewrite (get_all_characteristics_eq fuel db c ancestors Hanc) in H.
  injection H as <-. exists ancestors. split; [exact Hanc |].
  destruct fuel as [| fuel]; [discriminate |].
  apply get_ancestors_S in Hanc.
  destruct Hanc as [(Hp & ->) | (p & rest & Hp & _ & ->)].
  - simpl. rewrite app_nil_r. repeat split; auto.
    intros p ch Hp'. rewrite Hp in Hp'. discriminate.
  - repeat split.
    + intros ch Hin. apply in_app_iff in Hin. destruct Hin as [Hin | Hin];
        [now left |].
      apply In_concat_const in Hin. destruct Hin as (_ & Hin).
      right. exists p. split; [now left | exact Hin].
    + intros ch Hin. apply in_or_app. now left.
    + intros p' ch Hp' Hin. rewrite Hp in Hp'. injection Hp' as <-.
      apply in_or_app. right. apply In_concat_const.
      split; [discriminate | exact Hin].
    + intros Hroot. apply parent_Ok_Some in Hp.
      destruct Hp as (pid & Hpid & _). congruence.
Qed.

Lemma get_all_characteristics_inherited_witness :
  get_all_characteristics 3 Catalogue.db Catalogue.electronics
  = Ok [Catalogue.voltage; Catalogue.warranty]
  /\ exists ancestors,
       get_ancestors 3 Catalogue.db Catalogue.electronics = Ok ancestors
       /\ (forall ch, In ch [Catalogue.voltage; Catalogue.warranty] ->
             In ch (characteristics_of Catalogue.db Catalogue.electronics)
             \/ exists a, In a ancestors
                          /\ In ch (characteristics_of Catalogue.db a))
       /\ (forall ch,
              In ch (characteristics_of Catalogue.db Catalogue.electronics) ->
              In ch [Catalogue.voltage; Catalogue.warranty])
       /\ (forall p ch,
              parent Catalogue.db Catalogue.electronics = Ok (Some p) ->
              In ch (characteristics_of Catalogue.db p) ->
              In ch [Catalogue.voltage; Catalogue.warranty])
       /\ (cat_parent Catalogue.electronics = None ->
           [Catalogue.voltage; Catalogue.warranty]
           = characteristics_of Catalogue.db Catalogue.electronics).
Proof.
  split; [reflexivity |].
  exact (get_all_characteristics_inherited 3 Catalogue.db
           Catalogue.electronics [Catalogue.voltage; Catalogue.warranty]
           eq_refl).
Defined.

Lemma In_get_products (fuel : nat) (db : DB) (c : Category)
  (ps : list Product) (ds : list Category) (p : Product) :
  get_descendants fuel db c = Ok ds ->
  get_products fuel db c = Ok ps ->
  (In p ps <->
   In p (products db)
   /\ exists d, In d (c :: ds) /\ cat_id d = Some (prod_category p)).
Proof.
  unfold get_products. intros -> H. unfold bind in H.
  destruct (cat_id c) as [i | ] eqn:Ei; [| discriminate].
  injection H as <-. rewrite filter_In.
  pose proof (existsb_exists
                (fun d => pk_eqb (cat_id d) (Some (prod_category p)))
                (c :: ds)) as Hex.
  split; intros (Hp & H); (split; [exact Hp |]).
  - apply Hex in H. destruct H as (d & Hd & Hk).
    exists d. split; [exact Hd | now apply pk_eqb_eq].
  - apply Hex. destruct H as (d & Hd & Hk).
    exists d. split; [exact Hd | now apply pk_eqb_eq].
Qed.

Lemma get_products_descendants (fuel : nat) (db : DB) (c : Category)
  (ps : list Product) :
  get_products fuel db c = Ok ps ->
  exists ds, get_descendants fuel db c = Ok ds.
Proof.
  unfold get_products. intros H. apply bind_Ok in H.
  destruct H as (ds & Hds & _). now exists ds.
Qed.

(** X8.  [get_products] of a stored category in a well-formed tree
    contains every stored product placed directly in the category, and
    everything it contains is also among the products of each ancestor of
    the category. *)
Theorem get_products_inherited (db : DB) (n m m' : nat) (a c : Category)
  (ancestors : list Category) (of_c of_a : list Product) :
  well_formed db ->
  In c (categories db) ->
  get_ancestors n db c = Ok ancestors ->
  In a ancestors ->
  get_products m db c = Ok of_c ->
  get_products m' db a = Ok of_a ->
  (forall p, In p (products db) -> cat_id c = Some (prod_category p) ->
             In p of_c)
  /\ (forall p, In p of_c -> In p of_a).
Proof.
  intros Hwf Hc Hla Ha Hpc Hpa.
  assert (In a (categories db)) as Hsa
    by (now apply (get_ancestors_stored db n c a ancestors)).
  destruct (get_products_descendants m db c of_c Hpc) as (dc & Hdc).
  destruct (get_products_descendants m' db a of_a Hpa) as (da & Hda).
  split.
  - intros p Hp Hk. apply (In_get_products m db c of_c dc p Hdc Hpc).
    split; [exact Hp |]. exists c. split; [now left | exact Hk].
  - intros p Hp. apply (In_get_products m db c of_c dc p Hdc Hpc) in Hp.
    destruct Hp as (Hp & d & Hd & Hk).
    apply (In_get_products m' db a of_a da p Hda Hpa).
    split; [exact Hp |]. exists d. split; [| exact Hk]. right.
    destruct Hd as [<- | Hd].
    + now apply (ancestor_then_descendant db n m' a c ancestors da).
    + assert (In d (categories db)) as Hsd
        by (now apply (get_descendants_stored db m c d dc)).
      destruct (rooted_get_ancestors db d (wf_rooted db Hwf d Hsd))
        as (k & ld & Hld).
      pose proof (descendant_then_ancestor db k m c d ld dc Hwf Hc Hld Hdc Hd)
        as Hcd.
      destruct (get_ancestors_split db k d c ld Hld Hcd)
        as (before & after & E & Hafter).
      rewrite (get_ancestors_det db k n c after ancestors Hafter Hla) in E.
      apply (ancestor_then_descendant db k m' a d ld da Hsd Hld Hda).
      rewrite E. apply in_or_app. right. now right.
Qed.

Lemma get_products_inherited_witness :
  well_formed Catalogue.db
  /\ get_products 3 Catalogue.db Catalogue.electronics = Ok [Catalogue.lamp]
  /\ get_products 3 Catalogue.db Catalogue.root = Ok [Catalogue.lamp]
  /\ forall p, In p [Catalogue.lamp] -> In p [Catalogue.lamp].
Proof.
  assert (well_formed Catalogue.db) as Hwf
    by (apply well_formedb_sound; reflexivity).
  split; [exact Hwf |]. split; [reflexivity |]. split; [reflexivity |].
  apply (get_products_inherited Catalogue.db 3 3 3 Catalogue.root
           Catalogue.electronics [Catalogue.root] [Catalogue.lamp]
           [Catalogue.lamp] Hwf); try reflexivity; simpl; auto.
Defined.

(** * Further properties of [get_top_categories] and [get_siblings] *)

Lemma ordered_by_insert_by (key : Category -> nat) (x : Category)
  (l : list Category) :
  ordered_by key l -> ordered_by key (insert_by key x l).
Proof.
  induction l as [| y l IH]; simpl; intros H.
  - split; [intros y [] | exact I].
  - destruct H as (Hy & Hl).
    destruct (Nat.leb (key x) (key y)) eqn:E; simpl.
    + apply Nat.leb_le in E. split; [| now split].
      intros z [<- | Hz]; [exact E |]. specialize (Hy z Hz). lia.
    + apply Nat.leb_gt in E. split; [| now apply IH].
      intros z Hz. apply In_insert_by in Hz.
      destruct Hz as [-> | Hz]; [lia | now apply Hy].
Qed.

Lemma ordered_by_order_by (key : Category -> nat) (l : list Category) :
  ordered_by key (order_by key l).
Proof.
  unfold order_by. induction l as [| x l IH]; simpl; [exact I |].
  now apply ordered_by_insert_by.
Qed.

Lemma ordered_by_filter (key : Category -> nat) (f : Category -> bool)
  (l : list Category) :
  ordered_by key l -> ordered_by key (filter f l).
Proof.
  induction l as [| x l IH]; simpl; [tauto |]. intros (Hx & Hl).
  destruct (f x); simpl; [| now apply IH].
  split; [| now apply IH].
  intros y Hy. apply filter_In in Hy. now apply Hx.
Qed.

Lemma ordered_by_exclude_id (key : Category -> nat) (k : option nat)
  (l : list Category) :
  ordered_by key l -> ordered_by key (exclude_id k l).
Proof.
  destruct k; simpl; [apply ordered_by_filter | tauto].
Qed.

(** X9.  [get_top_categories] returns exactly the stored categories
    without a parent, in the order of their [order_number]. *)
Theorem get_top_categories_roots (db : DB) :
  (forall c, In c (get_top_categories db)
             <-> In c (categories db) /\ cat_parent c = None)
  /\ ordered_by cat_order_number (get_top_categories db).
Proof.
  split; [intros c; apply In_get_top_categories |].
  unfold get_top_categories, Category_objects.
  apply ordered_by_filter, ordered_by_order_by.
Qed.

(** X10.  The siblings of a category come in the order of their
    [order_number]; a category that has a key is never among its own
    siblings; and between two stored categories with keys, being a sibling
    is symmetric. *)
Theorem get_siblings_symmetric (db : DB) (c s : Category)
  (of_c of_s : list Category) :
  In c (categories db) ->
  In s (categories db) ->
  cat_id c <> None ->
  cat_id s <> None ->
  get_siblings db c = Ok of_c ->
  get_siblings db s = Ok of_s ->
  ordered_by cat_order_number of_c
  /\ ~ In c of_c
  /\ (In s of_c <-> In c of_s).
Proof.
  intros Hc Hs Hkc Hks Hoc Hos.
  split; [| split].
  - unfold get_siblings in Hoc. apply bind_Ok in Hoc.
    destruct Hoc as ([p | ] & _ & H); injection H as <-;
      apply ordered_by_exclude_id.
    + apply ordered_by_filter, ordered_by_order_by.
    + apply ordered_by_filter, ordered_by_order_by.
  - intros Hin. apply (In_get_siblings db c c of_c Hoc) in Hin.
    destruct Hin as (_ & _ & Hne).
    destruct (cat_id c) as [i | ]; [| now elim Hkc].
    now apply (Hne i).
  - rewrite (In_get_siblings db c s of_c Hoc),
      (In_get_siblings db s c of_s Hos).
    unfold is_sibling.
    destruct (cat_id c) as [i | ]; [| now elim Hkc].
    destruct (cat_id s) as [j | ]; [| now elim Hks].
    split; intros (_ & Hp & Hne); (split; [assumption |]);
      (split; [now symmetry |]); intros k Hk Heq; apply (Hne k);
      congruence.
Qed.

Lemma get_siblings_symmetric_witness :
  get_siblings Catalogue.db Catalogue.electronics = Ok [Catalogue.furniture]
  /\ get_siblings Catalogue.db Catalogue.furniture
     = Ok [Catalogue.electronics]
  /\ ~ In Catalogue.electronics [Catalogue.furniture]
  /\ (In Catalogue.furniture [Catalogue.furniture]
      <-> In Catalogue.electronics [Catalogue.electronics]).
Proof.
  split; [reflexivity |]. split; [reflexivity |].
  apply (get_siblings_symmetric Catalogue.db Catalogue.electronics
           Catalogue.furniture [Catalogue.furniture]
           [Catalogue.electronics]);
    try reflexivity; try discriminate; simpl; auto.
Defined.

(** * Further properties of [save] *)

Section ModelSave.

Context {R : Type}.
Variable key : R -> option nat.
Variable set_key : nat -> R -> R.
Variable to_row : R -> R.
Hypothesis key_set_key : forall i x, key (set_key i x) = Some i.
Hypothesis key_to_row : forall x, key (to_row x) = key x.

Lemma fresh_key_above (table : list R) (r : R) (j : nat) :
  In r table -> key r = Some j -> j < fresh_key key table.
Proof.
  unfold fresh_key. induction table as [| x table IH]; simpl; [tauto |].
  intros [-> | Hin] Hk.
  - rewrite Hk. lia.
  - specialize (IH Hin Hk). destruct (key x); lia.
Qed.

Lemma fresh_key_new (table : list R) (r : R) :
  In r table -> key r <> Some (fresh_key key table).
Proof.
  intros Hin Hk. pose proof (fresh_key_above table r _ Hin Hk). lia.
Qed.

(** The saved instance has a key, keeps the key it had, and the table
    afterwards holds its row together with the rows of the other keys. *)
Lemma Model_save_table (self : R) (table : list R) :
  let saved := fst (Model_save key set_key to_row self table) in
  let table' := snd (Model_save key set_key to_row self table) in
  (exists i, key saved = Some i)
  /\ (key self <> None -> saved = self)
  /\ (key self = None -> exists i, saved = set_key i self)
  /\ (forall r, In r table'
                <-> r = to_row saved \/ (In r table /\ key r <> key saved)).
Proof.
  unfold Model_save. destruct (key self) as [i | ] eqn:Ek.
  - destruct (existsb (fun r => pk_eqb (key r) (Some i)) table) eqn:Ex;
      simpl; rewrite Ek.
    + split; [now exists i |]. split; [reflexivity |].
      split; [discriminate |].
      apply existsb_exists in Ex. destruct Ex as (r0 & Hr0 & Hk0).
      intros r. rewrite in_map_iff. split.
      * intros (x & <- & Hx).
        destruct (pk_eqb (key x) (Some i)) eqn:E; [now left |].
        right. split; [exact Hx |]. intros H. apply pk_eqb_eq in H. congruence.
      * intros [-> | (Hin & Hne)].
        -- exists r0. now rewrite Hk0.
        -- exists r. split; [| exact Hin].
           destruct (pk_eqb (key r) (Some i)) eqn:E; [| reflexivity].
           apply pk_eqb_eq in E. contradiction.
    + split; [now exists i |]. split; [reflexivity |].
      split; [discriminate |].
      intros r. rewrite in_app_iff. simpl. split.
      * intros [Hin | [<- | []]]; [| now left].
        right. split; [exact Hin |]. intros H.
        assert (existsb (fun r => pk_eqb (key r) (Some i)) table = true)
          as Hex; [| congruence].
        apply existsb_exists. exists r. split; [exact Hin |].
        now apply pk_eqb_eq.
      * intros [-> | (Hin & _)]; auto.
  - simpl. rewrite key_set_key.
    split; [eauto |]. split; [intros H; now elim H |].
    split; [eauto |].
    intros r. rewrite in_app_iff. simpl. split.
    + intros [Hin | [<- | []]]; [| now left].
      right. split; [exact Hin | now apply fresh_key_new].
    + intros [-> | (Hin & _)]; auto.
Qed.

(** Saving keeps the keys of a table distinct. *)
Lemma Model_save_NoDup (self : R) (table : list R) :
  NoDup (map key table) ->
  NoDup (map key (snd (Model_save key set_key to_row self table))).
Proof.
  intros Hnd. unfold Model_save. destruct (key self) as [i | ] eqn:Ek.
  - destruct (existsb (fun r => pk_eqb (key r) (Some i)) table) eqn:Ex;
      simpl.
    + rewrite map_map.
      rewrite (map_ext_in _ key); [exact Hnd |].
      intros r _. destruct (pk_eqb (key r) (Some i)) eqn:E; [| reflexivity].
      apply pk_eqb_eq in E. rewrite key_to_row. congruence.
    + rewrite map_app. simpl. apply NoDup_app; [exact Hnd | |].
      * constructor; [tauto | constructor].
      * intros k Hk [<- | []]. apply in_map_iff in Hk.
        destruct Hk as (r & Hr & Hin). rewrite key_to_row, Ek in Hr.
        assert (existsb (fun r => pk_eqb (key r) (Some i)) table = true)
          as Hex; [| congruence].
        apply existsb_exists. exists r. split; [exact Hin |].
        now apply pk_eqb_eq.
  - simpl. rewrite map_app. simpl. apply NoDup_app; [exact Hnd | |].
    + constructor; [tauto | constructor].
    + intros k Hk [<- | []]. apply in_map_iff in Hk.
      destruct Hk as (r & Hr & Hin). rewrite key_to_row, key_set_key in Hr.
      now apply (fresh_key_new table r Hin).
Qed.

End ModelSave.

Lemma get_category_keyed (db : DB) (c : Category) (i : nat) :
  NoDup (map cat_id (categories db)) ->
  In c (categories db) -> cat_id c = Some i -> get_category db i = Ok c.
Proof.
  intros Hnd Hin Hk. unfold get_category.
  now rewrite (find_first_key _ c i Hnd Hin Hk).
Qed.

Lemma Category_save_eq (slugify unidecode : string -> string) (db : DB)
  (self : Category) :
  let named := set_cat_slug self (slugify (unidecode (cat_name self))) in
  Category_save slugify unidecode db self
  = (fst (Model_save cat_id set_cat_id (fun c => c) named (categories db)),
     with_categories db
       (snd (Model_save cat_id set_cat_id (fun c => c) named (categories db))),
     Ok tt).
Proof.
  unfold Category_save. simpl. now destruct (Model_save _ _ _ _ _).
Qed.

(** X11.  [Category.save] on a table whose rows have distinct keys: the
    instance comes back with a key (its own if it had one), it can be
    fetched again under that key, the rows of all other keys are the ones
    the table had, the table is still keyed, and no other table
    changes. *)
Theorem Category_save_round_trip (slugify unidecode : string -> string)
  (db : DB) (self : Category) :
  keyed db ->
  exists saved db' i,
    Category_save slugify unidecode db self = (saved, db', Ok tt)
    /\ cat_id saved = Some i
    /\ (cat_id self <> None -> cat_id saved = cat_id self)
    /\ get_category db' i = Ok saved
    /\ (forall r, cat_id r <> Some i ->
                  (In r (categories db') <-> In r (categories db)))
    /\ keyed db'
    /\ characteristics db' = characteristics db
    /\ products db' = products db
    /\ attributes db' = attributes db.
Proof.
  intros (Hkeys & Hnd).
  rewrite Category_save_eq.
  set (named := set_cat_slug self (slugify (unidecode (cat_name self)))).
  pose proof (Model_save_table cat_id set_cat_id (fun c => c)
                (fun i x => eq_refl) named (categories db)) as H.
  pose proof (Model_save_NoDup cat_id set_cat_id (fun c => c)
                (fun i x => eq_refl) (fun x => eq_refl) named (categories db)
                Hnd) as Hnd'.
  destruct (Model_save cat_id set_cat_id (fun c => c) named (categories db))
    as (saved, table). simpl in H, Hnd'.
  destruct H as ((i & Hi) & Hsame & _ & Hrows).
  exists saved, (with_categories db table), i.
  split; [reflexivity |]. split; [exact Hi |].
  split; [intros Hk; now rewrite (Hsame Hk) |].
  split; [| split; [| split; [| repeat split]]].
  - apply get_category_keyed; [exact Hnd' | | exact Hi].
    apply Hrows. now left.
  - intros r Hr. simpl. rewrite Hrows, Hi. split.
    + intros [-> | (Hin & _)]; [contradiction | exact Hin].
    + intros Hin. right. now split.
  - split; [| exact Hnd'].
    intros c Hin. simpl in Hin. apply Hrows in Hin.
    destruct Hin as [-> | (Hin & _)]; [rewrite Hi; discriminate |].
    now apply Hkeys.
Qed.

Lemma Category_save_round_trip_witness :
  keyed Catalogue.db
  /\ exists saved db' i,
       Category_save Catalogue.plain Catalogue.plain Catalogue.db
         Catalogue.furniture_again = (saved, db', Ok tt)
       /\ cat_id saved = Some i
       /\ (cat_id Catalogue.furniture_again <> None ->
           cat_id saved = cat_id Catalogue.furniture_again)
       /\ get_category db' i = Ok saved
       /\ (forall r, cat_id r <> Some i ->
                     (In r (categories db')
                      <-> In r (categories Catalogue.db)))
       /\ keyed db'
       /\ characteristics db' = characteristics Catalogue.db
       /\ products db' = products Catalogue.db
       /\ attributes db' = attributes Catalogue.db.
Proof.
  assert (keyed Catalogue.db) as Hk.
  { pose proof (well_formedb_sound Catalogue.db eq_refl) as Hwf.
    split; [apply (wf_saved _ Hwf) | apply (wf_unique _ Hwf)]. }
  split; [exact Hk |].
  exact (Category_save_round_trip Catalogue.plain Catalogue.plain
           Catalogue.db Catalogue.furniture_again Hk).
Defined.

Lemma Category_clean_Ok_siblings (slugify unidecode : string -> string)
  (db : DB) (self : Category) :
  snd (Category_clean slugify unidecode db self) = Ok tt ->
  exists siblings, get_siblings db self = Ok siblings.
Proof.
  unfold Category_clean. simpl. rewrite get_siblings_set_cat_slug.
  destruct (get_siblings db self) as [siblings | e | ]; simpl;
    [eauto | discriminate | discriminate].
Qed.

(** X12.  Validation followed by saving keeps slugs unique among siblings:
    if no two stored siblings share a slug, and [Category.clean] accepts
    an instance, then after [Category.save] of the cleaned instance still
    no two stored siblings share a slug. *)
Theorem clean_then_save_keeps_slugs_unique
  (slugify unidecode : string -> string) (db : DB) (self : Category) :
  sibling_slugs_unique db ->
  snd (Category_clean slugify unidecode db self) = Ok tt ->
  sibling_slugs_unique
    (snd (fst (Category_save slugify unidecode db
                 (fst (Category_clean slugify unidecode db self))))).
Proof.
  intros Hunique Hclean.
  destruct (Category_clean_Ok_siblings slugify unidecode db self Hclean)
    as (siblings & Hsib).
  destruct (Category_clean_outcome slugify unidecode db self siblings Hsib)
    as (Hself & [(Hout & _) | (_ & Hnone)]); [congruence |].
  rewrite Hself.
  change (Category_save slugify unidecode db
            (set_cat_slug self (slugify (unidecode (cat_name self)))))
    with (Category_save slugify unidecode db self).
  rewrite Category_save_eq.
  set (slug := slugify (unidecode (cat_name self))) in *.
  cbv beta zeta. unfold fst at 1. unfold snd at 1.
  pose proof (Model_save_table cat_id set_cat_id (fun c => c)
                (fun i x => eq_refl) (set_cat_slug self slug)
                (categories db)) as H.
  destruct (Model_save cat_id set_cat_id (fun c => c)
              (set_cat_slug self slug) (categories db)) as (saved, table).
  simpl in H. destruct H as (_ & Hkept & Hfresh & Hrows).
  assert (cat_parent saved = cat_parent self /\ cat_slug saved = slug)
    as (Hparent & Hslug).
  { destruct (cat_id self) as [i | ] eqn:Ei.
    - rewrite Hkept; [now split | discriminate].
    - destruct (Hfresh eq_refl) as (i & ->). now split. }
  assert (forall r, In r (categories db) -> cat_id r <> cat_id saved ->
                    cat_parent r = cat_parent saved ->
                    cat_slug r = cat_slug saved -> False) as Hclash.
  { intros r Hin Hne Hp Hs. apply Hnone. exists r.
    split; [exact Hin |]. split; [| congruence].
    split; [congruence |].
    intros i Hi. rewrite Hkept in Hne by (simpl; congruence).
    simpl in Hne. congruence. }
  intros a b Ha Hb Hp Hs. simpl in Ha, Hb.
  apply Hrows in Ha. apply Hrows in Hb.
  destruct Ha as [-> | (Ha & Hka)], Hb as [-> | (Hb & Hkb)].
  - reflexivity.
  - elim (Hclash b Hb Hkb); congruence.
  - elim (Hclash a Ha Hka); congruence.
  - now apply Hunique.
Qed.

Lemma clean_then_save_keeps_slugs_unique_witness :
  sibling_slugs_unique Catalogue.db
  /\ snd (Category_clean Catalogue.plain Catalogue.plain Catalogue.db
            Catalogue.electronics) = Ok tt
  /\ sibling_slugs_unique
       (snd (fst (Category_save Catalogue.plain Catalogue.plain Catalogue.db
                    (fst (Category_clean Catalogue.plain Catalogue.plain
                            Catalogue.db Catalogue.electronics))))).
Proof.
  assert (sibling_slugs_unique Catalogue.db) as Hu.
  { intros a b Ha Hb. simpl in Ha, Hb.
    destruct Ha as [<- | [<- | [<- | [<- | []]]]];
      destruct Hb as [<- | [<- | [<- | [<- | []]]]];
      intros Hp Hs; try reflexivity; discriminate. }
  split; [exact Hu |]. split; [reflexivity |].
  exact (clean_then_save_keeps_slugs_unique Catalogue.plain Catalogue.plain
           Catalogue.db Catalogue.electronics Hu eq_refl).
Defined.

Section ModelSaveAgain.

Context {R : Type}.
Variable key : R -> option nat.
Variable set_key : nat -> R -> R.
Variable to_row : R -> R.
Hypothesis key_set_key : forall i x, key (set_key i x) = Some i.
Hypothesis key_to_row : forall x, key (to_row x) = key x.

(** After a save, the rows under the saved key are the saved row, and the
    first of them is found. *)
Lemma Model_save_find (self : R) (table : list R) :
  let saved := fst (Model_save key set_key to_row self table) in
  let table' := snd (Model_save key set_key to_row self table) in
  find (fun r => pk_eqb (key r) (key saved)) table' = Some (to_row saved).
Proof.
  pose proof (Model_save_table key set_key to_row key_set_key self table)
    as H.
  destruct (Model_save key set_key to_row self table) as (saved, table').
  simpl in *. destruct H as (_ & _ & _ & Hrows).
  destruct (find (fun r => pk_eqb (key r) (key saved)) table') as [r | ]
    eqn:E.
  - apply find_some in E. destruct E as (Hin & Hk).
    apply pk_eqb_eq in Hk. apply Hrows in Hin.
    destruct Hin as [-> | (_ & Hne)]; [reflexivity | contradiction].
  - assert (In (to_row saved) table') as Hin by (apply Hrows; now left).
    apply (find_none _ _ E) in Hin. rewrite key_to_row in Hin.
    assert (pk_eqb (key saved) (key saved) = true) by now apply pk_eqb_eq.
    congruence.
Qed.

(** Saving the saved instance once more changes nothing. *)
Lemma Model_save_again (self : R) (table : list R) :
  let saved := fst (Model_save key set_key to_row self table) in
  let table' := snd (Model_save key set_key to_row self table) in
  Model_save key set_key to_row saved table' = (saved, table').
Proof.
  pose proof (Model_save_table key set_key to_row key_set_key self table)
    as H.
  destruct (Model_save key set_key to_row self table) as (saved, table').
  simpl in *. destruct H as ((i & Hi) & _ & _ & Hrows).
  unfold Model_save. rewrite Hi.
  assert (existsb (fun r => pk_eqb (key r) (Some i)) table' = true) as ->.
  { apply existsb_exists. exists (to_row saved).
    split; [apply Hrows; now left |].
    rewrite key_to_row. now apply pk_eqb_eq. }
  f_equal. rewrite <- (map_id table') at 2.
  apply map_ext_in. intros r Hin.
  destruct (pk_eqb (key r) (Some i)) eqn:E; [| reflexivity].
  apply pk_eqb_eq in E. apply Hrows in Hin.
  destruct Hin as [-> | (_ & Hne)]; [reflexivity | congruence].
Qed.

End ModelSaveAgain.

Lemma set_attr_value_float_same (a : ProductAttribute)
  (x : option PrimFloat.float) :
  attr_value_float a = x -> set_attr_value_float a x = a.
Proof. intros <-. now destruct a. Qed.

(** X13.  Saving is idempotent for categories and for attributes: saving
    the instance that a successful save returned, in the database that save
    left, returns the same instance and leaves the database as it is.
    ([Category.save] always succeeds; [ProductAttribute.save] succeeds
    when the attribute has a product.) *)
Theorem save_again_changes_nothing (slugify unidecode : string -> string)
  (float : string -> option PrimFloat.float) (db : DB) :
  (forall self : Category,
      exists saved db',
        Category_save slugify unidecode db self = (saved, db', Ok tt)
        /\ Category_save slugify unidecode db' saved = (saved, db', Ok tt))
  /\ (forall (self saved : ProductAttribute) (db' : DB),
         ProductAttribute_save float db self = (saved, db', Ok tt) ->
         ProductAttribute_save float db' saved = (saved, db', Ok tt)).
Proof.
  split; [intros self | intros self saved db' Hsave].
  - rewrite Category_save_eq.
    set (named := set_cat_slug self (slugify (unidecode (cat_name self)))).
    pose proof (Model_save_again cat_id set_cat_id (fun c => c)
                  (fun i x => eq_refl) (fun x => eq_refl) named
                  (categories db)) as Hagain.
    pose proof (Model_save_table cat_id set_cat_id (fun c => c)
                  (fun i x => eq_refl) named (categories db)) as H.
    destruct (Model_save cat_id set_cat_id (fun c => c) named (categories db))
      as (saved, table). simpl in *.
    destruct H as (_ & Hkept & Hfresh & _).
    eexists. eexists. split; [reflexivity |].
    rewrite Category_save_eq. simpl.
    assert (set_cat_slug saved (slugify (unidecode (cat_name saved))) = saved)
      as ->.
    { destruct (cat_id self) as [i | ] eqn:Ei.
      - rewrite Hkept by discriminate. reflexivity.
      - destruct (Hfresh eq_refl) as (i & ->). reflexivity. }
    now rewrite Hagain.
  - unfold ProductAttribute_save in Hsave.
    set (parsed := match float (attr_value self) with
                   | Some x => set_attr_value_float self (Some x)
                   | None => self
                   end) in Hsave.
    assert (attr_value parsed = attr_value self
            /\ attr_value_float parsed
               = match float (attr_value self) with
                 | Some x => Some x
                 | None => attr_value_float self
                 end) as (Hpv & Hpf)
        by (unfold parsed; now destruct (float (attr_value self))).
    destruct (attr_product parsed) as [owner | ] eqn:Howner;
      [| discriminate].
    pose proof (Model_save_again attr_id set_attr_id (fun a => a)
                  (fun i x => eq_refl) (fun x => eq_refl) parsed
                  (attributes db)) as Hagain.
    pose proof (Model_save_table attr_id set_attr_id (fun a => a)
                  (fun i x => eq_refl) parsed (attributes db)) as H.
    destruct (Model_save attr_id set_attr_id (fun a => a) parsed
                (attributes db)) as (saved0, table). simpl in *.
    injection Hsave as <- <-.
    destruct H as (_ & Hkept & Hfresh & _).
    assert (attr_value saved0 = attr_value parsed
            /\ attr_value_float saved0 = attr_value_float parsed
            /\ attr_product saved0 = Some owner) as (Hv & Hf & Hp).
    { destruct (attr_id parsed) as [i | ] eqn:Ei.
      - rewrite Hkept by discriminate. now repeat split.
      - destruct (Hfresh eq_refl) as (i & ->). now repeat split. }
    unfold ProductAttribute_save. rewrite Hv, Hpv.
    assert (match float (attr_value self) with
            | Some x => set_attr_value_float saved0 (Some x)
            | None => saved0
            end = saved0) as ->.
    { destruct (float (attr_value self)); [| reflexivity].
      apply set_attr_value_float_same. congruence. }
    rewrite Hp. simpl. now rewrite Hagain.
Qed.

Lemma save_again_changes_nothing_witness :
  snd (ProductAttribute_save Catalogue.float_of_string Catalogue.db
         Catalogue.edited_price) = Ok tt
  /\ ProductAttribute_save Catalogue.float_of_string
       (snd (fst (ProductAttribute_save Catalogue.float_of_string
                    Catalogue.db Catalogue.edited_price)))
       (fst (fst (ProductAttribute_save Catalogue.float_of_string
                    Catalogue.db Catalogue.edited_price)))
     = ProductAttribute_save Catalogue.float_of_string Catalogue.db
         Catalogue.edited_price.
Proof.
  split; [reflexivity |].
  exact (proj2 (save_again_changes_nothing Catalogue.plain Catalogue.plain
                  Catalogue.float_of_string Catalogue.db)
           Catalogue.edited_price _ _ eq_refl).
Defined.

Lemma ProductAttribute_save_new (float : string -> option PrimFloat.float)
  (db : DB) (self : ProductAttribute) (owner : nat) :
  attr_id self = None ->
  attr_product self = Some owner ->
  exists saved,
    ProductAttribute_save float db self
    = (saved, with_attributes db (attributes db ++ [saved]), Ok tt)
    /\ stored_as float (Some owner) self saved.
Proof.
  intros Hnew Howner. unfold ProductAttribute_save, Model_save.
  assert (attr_id (match float (attr_value self) with
                   | Some x => set_attr_value_float self (Some x)
                   | None => self
                   end) = None
          /\ attr_product (match float (attr_value self) with
                           | Some x => set_attr_value_float self (Some x)
                           | None => self
                           end) = Some owner) as (-> & ->)
      by (now destruct (float (attr_value self))).
  eexists. split; [reflexivity |].
  unfold stored_as. destruct (float (attr_value self)); simpl;
    repeat split; try assumption; discriminate.
Qed.

Lemma save_predefined_new (float : string -> option PrimFloat.float)
  (owner : nat) (l : list ProductAttribute) (db : DB) :
  Forall (fun a => attr_id a = None) l ->
  exists l',
    save_predefined float db (Some owner) l
    = (l', with_attributes db (attributes db ++ l'), Ok tt)
    /\ Forall2 (stored_as float (Some owner)) l l'.
Proof.
  revert db. induction l as [| a l IH]; intros db Hnew.
  - exists []. simpl. rewrite app_nil_r. split; [| constructor].
    now destruct db.
  - inversion Hnew as [| a' l0 Ha Hl]; subst.
    destruct (ProductAttribute_save_new float db
                (set_attr_product a (Some owner)) owner Ha eq_refl)
      as (saved & Hsave & Hstored).
    simpl. rewrite Hsave.
    destruct (IH (with_attributes db (attributes db ++ [saved])) Hl)
      as (l' & Hrest & Hall).
    rewrite Hrest. exists (saved :: l'). split.
    + simpl. now rewrite <- app_assoc.
    + constructor; [exact Hstored | exact Hall].
Qed.

Lemma violates_unique_collides (db : DB) (self : Product) :
  violates_unique db self = true <-> collides db self.
Proof.
  unfold violates_unique, collides. rewrite existsb_exists.
  split; intros (r & Hin & H); exists r; (split; [exact Hin |]).
  - apply andb_true_iff in H. destruct H as (Hk & H).
    apply negb_true_iff in Hk. split; [exact Hk |].
    apply orb_true_iff in H. destruct H as [H | H];
      [apply orb_true_iff in H; destruct H as [H | H] |];
      apply String.eqb_eq in H; auto.
  - destruct H as (Hk & H). apply andb_true_iff.
    split; [now apply negb_true_iff |].
    rewrite !orb_true_iff, !String.eqb_eq. tauto.
Qed.

(** X14.  [Product.save] is refused by the unique columns exactly when
    another stored product has the instance's name, its recomputed slug or
    its code; it then raises [IntegrityError] and leaves the database as
    it was.  In every other case it succeeds. *)
Theorem Product_save_unique_columns (slugify unidecode : string -> string)
  (float : string -> option PrimFloat.float) (db : DB) (self : Product) :
  let named := set_prod_slug self (slugify (unidecode (prod_name self))) in
  (collides db named ->
   Product_save slugify unidecode float db self
   = (named, db, Raise IntegrityError))
  /\ (~ collides db named ->
      snd (Product_save slugify unidecode float db self) = Ok tt).
Proof.
  intros named. unfold Product_save. fold named.
  pose proof (violates_unique_collides db named) as Hv.
  destruct (violates_unique db named).
  - split; [reflexivity |]. intros Hnot. elim Hnot. now apply Hv.
  - split; [intros Hc; apply Hv in Hc; discriminate |]. intros _.
    pose proof (Model_save_table prod_id set_prod_id
                  (fun p => set_predefined_attributes p None)
                  (fun i x => eq_refl) named (products db)) as Hkey.
    destruct (Model_save _ _ _ _ _) as (saved, table).
    simpl in Hkey. destruct Hkey as ((k & Hk) & _).
    destruct (predefined_attributes saved) as [l | ]; [| reflexivity].
    rewrite Hk.
    assert (snd (save_predefined float (with_products db table)
                   (Some k) l) = Ok tt) as Hok.
    { generalize (with_products db table) as d.
      induction l as [| a l IH]; intros d; [reflexivity |].
      simpl.
      destruct (ProductAttribute_save_Ok float d a k) as (sa & ta & ->).
      specialize (IH (with_attributes d ta)).
      now destruct (save_predefined float (with_attributes d ta)
                      (Some k) l) as ((rest, d'), r). }
    now destruct (save_predefined float (with_products db table)
                    (Some k) l) as ((l', db'), r).
Qed.

Lemma Product_save_unique_columns_witness :
  ~ collides Catalogue.db
      (set_prod_slug Catalogue.radio
         (Catalogue.plain (Catalogue.plain (prod_name Catalogue.radio))))
  /\ snd (Product_save Catalogue.plain Catalogue.plain
            Catalogue.float_of_string Catalogue.db Catalogue.radio) = Ok tt.
Proof.
  assert (~ collides Catalogue.db
            (set_prod_slug Catalogue.radio
               (Catalogue.plain (Catalogue.plain (prod_name Catalogue.radio)))))
    as Hnot.
  { intros H. apply violates_unique_collides in H. discriminate H. }
  split; [exact Hnot |].
  exact (proj2 (Product_save_unique_columns Catalogue.plain Catalogue.plain
                  Catalogue.float_of_string Catalogue.db Catalogue.radio)
           Hnot).
Defined.

(** X15.  [Product.save] of a product that comes with new predefined
    attributes and meets the unique columns: the product gets a key (its
    own if it had one) under which its row can be fetched; every
    predefined attribute is appended to the attribute table, in order,
    belonging to the product, with a key, and with the parsed number when
    its value parses; the other tables are untouched. *)
Theorem Product_save_stores_predefined
  (slugify unidecode : string -> string)
  (float : string -> option PrimFloat.float) (db : DB) (self : Product)
  (l : list ProductAttribute) :
  predefined_attributes self = Some l ->
  Forall (fun a => attr_id a = None) l ->
  ~ collides db (set_prod_slug self (slugify (unidecode (prod_name self)))) ->
  exists saved db' k l',
    Product_save slugify unidecode float db self = (saved, db', Ok tt)
    /\ prod_id saved = Some k
    /\ (prod_id self <> None -> prod_id saved = prod_id self)
    /\ get_product db' k = Ok (set_predefined_attributes saved None)
    /\ predefined_attributes saved = Some l'
    /\ attributes db' = attributes db ++ l'
    /\ Forall2 (stored_as float (Some k)) l l'
    /\ categories db' = categories db
    /\ characteristics db' = characteristics db.
Proof.
  intros Hpre Hnew Hnot. unfold Product_save.
  set (named := set_prod_slug self (slugify (unidecode (prod_name self))))
    in *.
  destruct (violates_unique db named) eqn:Ev;
    [apply violates_unique_collides in Ev; contradiction |].
  pose proof (Model_save_table prod_id set_prod_id
                (fun p => set_predefined_attributes p None)
                (fun i x => eq_refl) named (products db)) as H.
  pose proof (Model_save_find prod_id set_prod_id
                (fun p => set_predefined_attributes p None)
                (fun i x => eq_refl) (fun x => eq_refl) named (products db))
    as Hfind.
  destruct (Model_save prod_id set_prod_id
              (fun p => set_predefined_attributes p None) named
              (products db)) as (saved, table).
  simpl in H, Hfind. destruct H as ((k & Hk) & Hkept & Hfresh & _).
  assert (predefined_attributes saved = Some l) as Hl.
  { destruct (prod_id self) as [i | ] eqn:Ei.
    - rewrite Hkept by discriminate. exact Hpre.
    - destruct (Hfresh eq_refl) as (i & ->). exact Hpre. }
  rewrite Hl, Hk.
  destruct (save_predefined_new float k l (with_products db table) Hnew)
    as (l' & -> & Hall).
  eexists. eexists. exists k, l'.
  split; [reflexivity |]. split; [exact Hk |]. split.
  - intros Hid. rewrite Hkept; [reflexivity | exact Hid].
  - split.
    + unfold get_product. simpl. rewrite Hk in Hfind. now rewrite Hfind.
    + now repeat split.
Qed.

Lemma Product_save_stores_predefined_witness :
  predefined_attributes Catalogue.radio
  = Some [Catalogue.bound 2 "110"; Catalogue.bound 2 "220";
          Catalogue.bound 1 "2"]
  /\ exists saved db' k l',
       Product_save Catalogue.plain Catalogue.plain
         Catalogue.float_of_string Catalogue.db Catalogue.radio
       = (saved, db', Ok tt)
       /\ prod_id saved = Some k
       /\ (prod_id Catalogue.radio <> None ->
           prod_id saved = prod_id Catalogue.radio)
       /\ get_product db' k = Ok (set_predefined_attributes saved None)
       /\ predefined_attributes saved = Some l'
       /\ attributes db' = attributes Catalogue.db ++ l'
       /\ Forall2 (stored_as Catalogue.float_of_string (Some k))
            [Catalogue.bound 2 "110"; Catalogue.bound 2 "220";
             Catalogue.bound 1 "2"] l'
       /\ categories db' = categories Catalogue.db
       /\ characteristics db' = characteristics Catalogue.db.
Proof.
  split; [reflexivity |].
  apply (Product_save_stores_predefined Catalogue.plain Catalogue.plain
           Catalogue.float_of_string Catalogue.db Catalogue.radio);
    [reflexivity | repeat constructor |].
  intros H. apply violates_unique_collides in H. discriminate H.
Defined.

(** * Validation survives saving *)

Lemma get_category_tables (db db' : DB) (i : nat) :
  categories db' = categories db -> get_category db' i = get_category db i.
Proof. unfold get_category. now intros ->. Qed.

Lemma get_ancestors_tables (db db' : DB) (n : nat) (c : Category) :
  categories db' = categories db ->
  get_ancestors n db' c = get_ancestors n db c.
Proof.
  intros H. revert c. induction n as [| n IH]; intros c; [reflexivity |].
  simpl. unfold parent. destruct (cat_parent c) as [pid | ]; [| reflexivity].
  rewrite (get_category_tables db db' pid H).
  destruct (get_category db pid) as [p | | ]; simpl; try reflexivity.
  now rewrite IH.
Qed.

Lemma get_all_characteristics_tables (db db' : DB) (n : nat) (c : Category) :
  categories db' = categories db ->
  characteristics db' = characteristics db ->
  get_all_characteristics n db' c = get_all_characteristics n db c.
Proof.
  intros Hc Hch. unfold get_all_characteristics.
  rewrite (get_ancestors_tables db db' n c Hc).
  assert (forall x, characteristics_of db' x = characteristics_of db x) as Ho
    by (intros x; unfold characteristics_of; now rewrite Hch).
  assert (parent db' c = parent db c) as ->
    by (unfold parent; destruct (cat_parent c); [| reflexivity];
        now rewrite (get_category_tables db db' _ Hc)).
  rewrite Ho.
  destruct (get_ancestors n db c) as [l | | ]; simpl; try reflexivity.
  destruct (parent db c) as [[p | ] | | ]; simpl; try reflexivity.
  now rewrite Ho.
Qed.

Lemma Forall2_In_left {A B : Type} (P : A -> B -> Prop) (l : list A)
  (l' : list B) (a : A) :
  Forall2 P l l' -> In a l -> exists b, In b l' /\ P a b.
Proof.
  induction 1 as [| x y l l' Hxy _ IH]; simpl; [tauto |].
  intros [<- | Hin]; [exists y; auto |].
  destruct (IH Hin) as (b & Hb & Hab). exists b. auto.
Qed.

Lemma Forall2_In_right {A B : Type} (P : A -> B -> Prop) (l : list A)
  (l' : list B) (b : B) :
  Forall2 P l l' -> In b l' -> exists a, In a l /\ P a b.
Proof.
  induction 1 as [| x y l l' Hxy _ IH]; simpl; [tauto |].
  intros [<- | Hin]; [exists x; auto |].
  destruct (IH Hin) as (a & Ha & Hab). exists a. auto.
Qed.

Lemma resolves_tables (db db' : DB) (a : ProductAttribute) :
  characteristics db' = characteristics db ->
  resolves db a -> resolves db' a.
Proof.
  intros H Hres k Hk. destruct (Hres k Hk) as (c & Hc).
  exists c. unfold get_characteristic in *. now rewrite H.
Qed.

(** What a successful [Product.save] leaves behind, as far as
    [Product.clean] can see it. *)
Lemma Product_save_effect (slugify unidecode : string -> string)
  (float : string -> option PrimFloat.float) (db : DB) (self : Product) :
  Forall (fun a => attr_id a = None)
         (match predefined_attributes self with Some l => l | None => [] end) ->
  ~ collides db (set_prod_slug self (slugify (unidecode (prod_name self)))) ->
  exists saved db' k row,
    Product_save slugify unidecode float db self = (saved, db', Ok tt)
    /\ prod_id saved = Some k
    /\ prod_category saved = prod_category self
    /\ get_product db' k = Ok row
    /\ prod_category row = prod_category self
    /\ categories db' = categories db
    /\ characteristics db' = characteristics db
    /\ (forall a, In a (_get_all_attributes db self) ->
                  exists a', In a' (_get_all_attributes db' saved)
                             /\ attr_characteristic a'
                                = attr_characteristic a)
    /\ (forall a', In a' (_get_all_attributes db' saved) ->
                   In a' (attributes db)
                   \/ exists a, In a (_get_all_attributes db self)
                                /\ attr_characteristic a'
                                   = attr_characteristic a).
Proof.
  intros Hnew Hnot. unfold Product_save.
  set (named := set_prod_slug self (slugify (unidecode (prod_name self))))
    in *.
  destruct (violates_unique db named) eqn:Ev;
    [apply violates_unique_collides in Ev; contradiction |].
  pose proof (Model_save_table prod_id set_prod_id
                (fun p => set_predefined_attributes p None)
                (fun i x => eq_refl) named (products db)) as H.
  pose proof (Model_save_find prod_id set_prod_id
                (fun p => set_predefined_attributes p None)
                (fun i x => eq_refl) (fun x => eq_refl) named (products db))
    as Hfind.
  destruct (Model_save prod_id set_prod_id
              (fun p => set_predefined_attributes p None) named
              (products db)) as (saved, table).
  simpl in H, Hfind. destruct H as ((k & Hk) & Hkept & Hfresh & _).
  assert (predefined_attributes saved = predefined_attributes self
          /\ prod_category saved = prod_category self
          /\ (forall i, prod_id self = Some i -> k = i)) as (Hl & Hcat & Hid).
  { destruct (prod_id self) as [i | ] eqn:Ei.
    - rewrite Hkept in * by discriminate. simpl in Hk.
      repeat split. intros j Hj. congruence.
    - destruct (Hfresh eq_refl) as (i & ->). repeat split. discriminate. }
  rewrite Hk in Hfind.
  assert (forall atts a,
             In a (attributes_of db self) ->
             In a (attributes_of
                     (with_attributes (with_products db table)
                        (attributes db ++ atts))
                     (set_predefined_attributes saved (Some atts))))
    as Hold.
  { intros atts a. unfold attributes_of. simpl. rewrite Hk.
    destruct (prod_id self) as [i | ]; [| intros []].
    rewrite (Hid i eq_refl), !filter_In, in_app_iff. tauto. }
  rewrite Hl. unfold _get_all_attributes.
  destruct (predefined_attributes self) as [l | ] eqn:Hpre.
  - rewrite Hk.
    destruct (save_predefined_new float k l (with_products db table) Hnew)
      as (l' & -> & Hall).
    eexists. eexists. exists k. eexists.
    split; [reflexivity |]. split; [exact Hk |]. split; [exact Hcat |].
    split; [unfold get_product; simpl; now rewrite Hfind |].
    split; [exact Hcat |]. split; [reflexivity |]. split; [reflexivity |].
    assert (forall a', In a' l' ->
                       exists a, In a l /\ attr_characteristic a'
                                          = attr_characteristic a) as Hback.
    { intros a' Ha'.
      destruct (Forall2_In_right _ l l' a' Hall Ha') as (a & Ha & Hst).
      exists a. split; [exact Ha |]. now destruct Hst as (_ & _ & Hc & _). }
    split.
    + intros a Ha. apply in_app_iff in Ha. destruct Ha as [Ha | Ha].
      * exists a. split; [| reflexivity].
        apply in_or_app. left. now apply Hold.
      * destruct (Forall2_In_left _ l l' a Hall Ha) as (a' & Ha' & Hst).
        exists a'. split; [apply in_or_app; now right |].
        now destruct Hst as (_ & _ & Hc & _).
    + intros a' Ha'. apply in_app_iff in Ha'.
      assert (In a' l' ->
              exists a, In a (attributes_of db self ++ l)
                        /\ attr_characteristic a' = attr_characteristic a)
        as Hnewrow.
      { intros H. destruct (Hback a' H) as (a & Ha & Hc).
        exists a. split; [apply in_or_app; now right | exact Hc]. }
      destruct Ha' as [Ha' | Ha']; [| right; now apply Hnewrow].
      unfold attributes_of in Ha'. simpl in Ha'. rewrite Hk in Ha'.
      apply filter_In in Ha'. destruct Ha' as (Ha' & _).
      apply in_app_iff in Ha'.
      destruct Ha' as [Ha' | Ha']; [now left | right; now apply Hnewrow].
  - eexists. eexists. exists k. eexists.
    split; [reflexivity |]. split; [exact Hk |]. split; [exact Hcat |].
    split; [unfold get_product; simpl; now rewrite Hfind |].
    split; [exact Hcat |]. split; [reflexivity |]. split; [reflexivity |].
    split.
    + intros a Ha. rewrite app_nil_r in Ha. exists a.
      split; [| reflexivity].
      rewrite Hl. apply in_or_app. left.
      unfold attributes_of in *. simpl. rewrite Hk.
      destruct (prod_id self) as [i | ]; [| destruct Ha].
      now rewrite (Hid i eq_refl).
    + intros a' Ha'. rewrite Hl, app_nil_r in Ha'. left.
      unfold attributes_of in Ha'. simpl in Ha'. rewrite Hk in Ha'.
      now apply filter_In in Ha'.
Qed.

(** Without the hypothesis on the stored attributes the property fails:
    the new product is given the key 2, the attribute row left under that
    key becomes one of its attributes, and reading its characteristic
    raises [DoesNotExist]. *)
Lemma Product_clean_after_save_orphan :
  Product_clean Catalogue.in_order 3 Catalogue.db_with_orphan Catalogue.radio
  = Ok tt
  /\ snd (Product_save Catalogue.plain Catalogue.plain
            Catalogue.float_of_string Catalogue.db_with_orphan
            Catalogue.radio) = Ok tt
  /\ Product_clean Catalogue.in_order 3
       (snd (fst (Product_save Catalogue.plain Catalogue.plain
                    Catalogue.float_of_string Catalogue.db_with_orphan
                    Catalogue.radio)))
       (fst (fst (Product_save Catalogue.plain Catalogue.plain
                    Catalogue.float_of_string Catalogue.db_with_orphan
                    Catalogue.radio)))
     = Raise DoesNotExist.
Proof. repeat split. Qed.

(** X16.  Validation survives saving: in a database whose stored
    attributes refer to characteristics that can be fetched, when
    [Product.clean] accepts a product whose predefined attributes are new
    and which meets the unique columns, [Product.save] succeeds, and
    [Product.clean] accepts the saved instance in the database the save
    has left. *)
Theorem Product_clean_after_save (slugify unidecode : string -> string)
  (float : string -> option PrimFloat.float)
  (order : list Characteristic -> list Characteristic) (fuel : nat) (db : DB)
  (self : Product) :
  (forall a, In a (attributes db) -> resolves db a) ->
  Forall (fun a => attr_id a = None)
         (match predefined_attributes self with Some l => l | None => [] end) ->
  ~ collides db (set_prod_slug self (slugify (unidecode (prod_name self)))) ->
  Product_clean order fuel db self = Ok tt ->
  exists saved db',
    Product_save slugify unidecode float db self = (saved, db', Ok tt)
    /\ Product_clean order fuel db' saved = Ok tt.
Proof.
  intros Hstored Hnew Hnot Hclean.
  destruct (Product_save_effect slugify unidecode float db self Hnew Hnot)
    as (saved & db' & k & row & Hsave & Hk & Hcat & Hrow & Hrowcat & Hcats
        & Hchars & Hatts & Hback).
  exists saved, db'. split; [exact Hsave |].
  apply Product_clean_Ok in Hclean. destruct Hclean as (_ & Hreq).
  apply check_required_characteristics_Ok in Hreq.
  destruct Hreq as (category & chars & Hg & Hall & Hres & Hcov).
  destruct (get_category_Ok db _ _ Hg) as (_ & Hkey).
  apply Product_clean_Ok. split.
  - unfold check_category_change. rewrite Hk, Hrow. simpl.
    rewrite Hrowcat, Hcat, (get_category_tables db db' _ Hcats), Hg. simpl.
    rewrite Hkey. simpl. now rewrite Nat.eqb_refl.
  - apply check_required_characteristics_Ok. exists category, chars.
    rewrite Hcat, (get_category_tables db db' _ Hcats).
    rewrite (get_all_characteristics_tables db db' fuel category Hcats Hchars).
    split; [exact Hg |]. split; [exact Hall |]. split.
    + intros a' Ha'. apply (resolves_tables db db' a' Hchars).
      destruct (Hback a' Ha') as [Hin | (a & Ha & Hc)];
        [now apply Hstored |].
      intros j Hj. rewrite Hc in Hj. now apply (Hres a Ha).
    + intros c Hc. destruct (Hcov c Hc) as (a & Ha & Hka).
      destruct (Hatts a Ha) as (a' & Ha' & Hka').
      exists a'. split; [exact Ha' | congruence].
Qed.

Lemma Product_clean_after_save_witness :
  (forall a, In a (attributes Catalogue.db) -> resolves Catalogue.db a)
  /\ Product_clean Catalogue.in_order 3 Catalogue.db Catalogue.radio = Ok tt
  /\ exists saved db',
       Product_save Catalogue.plain Catalogue.plain
         Catalogue.float_of_string Catalogue.db Catalogue.radio
       = (saved, db', Ok tt)
       /\ Product_clean Catalogue.in_order 3 db' saved = Ok tt.
Proof.
  assert (forall a, In a (attributes Catalogue.db) -> resolves Catalogue.db a)
    as Hres.
  { intros a [<- | [<- | []]] k Hk; injection Hk as <-.
    - now exists Catalogue.voltage.
    - now exists Catalogue.warranty. }
  split; [exact Hres |]. split; [reflexivity |].
  apply (Product_clean_after_save Catalogue.plain Catalogue.plain
           Catalogue.float_of_string Catalogue.in_order 3 Catalogue.db
           Catalogue.radio Hres);
    [repeat constructor | | reflexivity].
  intros H. apply violates_unique_collides in H. discriminate H.
Defined.

(** * Display names and main images *)

(** X17.  After [ProductAttribute.clean] has accepted an attribute,
    [get_display_name] does not raise.  When the attribute is connected to
    a characteristic, the characteristic can be fetched,
    [get_display_name] is its name and [__str__] is empty; when it is
    connected to none, [get_display_name] and [__str__] are both the
    attribute's own name, which is not empty. *)
Theorem get_display_name_of_clean (db : DB) (self : ProductAttribute) :
  ProductAttribute_clean db self = Ok tt ->
  (forall k, attr_characteristic self = Some k ->
      exists c, get_characteristic db k = Ok c
                /\ get_display_name db self = Ok (char_name c)
                /\ ProductAttribute_str self = "")
  /\ (attr_characteristic self = None ->
      get_display_name db self = Ok (attr_name self)
      /\ ProductAttribute_str self = attr_name self
      /\ attr_name self <> "").
Proof.
  rewrite ProductAttribute_clean_cases.
  unfold get_display_name, characteristic, ProductAttribute_str.
  intros Hclean. split.
  - intros k Hk. rewrite Hk in *.
    destruct (get_characteristic db k) as [c | e | ]; simpl in Hclean;
      try discriminate.
    exists c. split; [reflexivity |]. split; [reflexivity |].
    destruct (attr_name self); [reflexivity | discriminate].
  - intros Hnone. rewrite Hnone in *. simpl in Hclean.
    split; [reflexivity |]. split; [reflexivity |].
    destruct (attr_name self); discriminate.
Qed.

Lemma get_display_name_of_clean_witness :
  ProductAttribute_clean Catalogue.db Catalogue.lamp_voltage = Ok tt
  /\ exists c, get_characteristic Catalogue.db 2 = Ok c
               /\ get_display_name Catalogue.db Catalogue.lamp_voltage
                  = Ok (char_name c)
               /\ ProductAttribute_str Catalogue.lamp_voltage = "".
Proof.
  split; [reflexivity |].
  exact (proj1 (get_display_name_of_clean Catalogue.db Catalogue.lamp_voltage
                  eq_refl) 2 eq_refl).
Defined.

Lemma qs_first_None (qs : list ProductImage) :
  qs_first qs = None <-> qs = [].
Proof.
  destruct qs as [| x qs]; simpl; [tauto |].
  destruct (qs_first qs) as [y | ];
    [destruct (Nat.leb (img_id x) (img_id y)) |];
    split; discriminate.
Qed.

Lemma qs_first_Some (qs : list ProductImage) (im : ProductImage) :
  qs_first qs = Some im ->
  In im qs /\ forall other, In other qs -> img_id im <= img_id other.
Proof.
  revert im. induction qs as [| x qs IH]; simpl; intros im H;
    [discriminate |].
  destruct (qs_first qs) as [y | ] eqn:E.
  - destruct (IH y eq_refl) as (Hy & Hmin).
    destruct (Nat.leb (img_id x) (img_id y)) eqn:L; injection H as <-.
    + apply Nat.leb_le in L. split; [now left |].
      intros other [<- | Ho]; [lia |]. specialize (Hmin other Ho). lia.
    + apply Nat.leb_gt in L. split; [now right |].
      intros other [<- | Ho]; [lia | now apply Hmin].
  - injection H as <-. apply qs_first_None in E. subst qs.
    split; [now left |]. intros other [<- | []]. lia.
Qed.

(** X18.  [get_main_image] returns nothing exactly when no stored image of
    the product is marked main (in particular for a product without a
    key); otherwise it returns an image of the product that is marked
    main, the one with the least key among them. *)
Theorem get_main_image_main (images : list ProductImage) (self : Product) :
  (get_main_image images self = None
   <-> forall im, In im images -> prod_id self = Some (img_product im) ->
                  img_is_main im = false)
  /\ (forall im, get_main_image images self = Some im ->
        In im images
        /\ prod_id self = Some (img_product im)
        /\ img_is_main im = true
        /\ forall other,
             In other images -> prod_id self = Some (img_product other) ->
             img_is_main other = true -> img_id im <= img_id other).
Proof.
  assert (forall im, In im (filter img_is_main (images_of images self))
                     <-> In im images
                         /\ prod_id self = Some (img_product im)
                         /\ img_is_main im = true) as Hin.
  { intros im. rewrite filter_In. unfold images_of.
    destruct (prod_id self) as [i | ].
    - rewrite filter_In, Nat.eqb_eq. split.
      + intros ((H1 & H2) & H3). subst. auto.
      + intros (H1 & H2 & H3). injection H2 as ->. auto.
    - simpl. split; [tauto | intros (_ & H & _); discriminate]. }
  unfold get_main_image. split.
  - rewrite qs_first_None. split.
    + intros Hnil im Him Hp.
      destruct (img_is_main im) eqn:E; [| reflexivity].
      assert (In im (filter img_is_main (images_of images self))) as H
        by (apply Hin; auto).
      rewrite Hnil in H. destruct H.
    + intros Hnone.
      destruct (filter img_is_main (images_of images self)) as [| im l]
        eqn:E; [reflexivity |].
      assert (In im (im :: l)) as H by (now left).
      apply Hin in H. destruct H as (H1 & H2 & H3).
      rewrite (Hnone im H1 H2) in H3. discriminate.
  - intros im H. apply qs_first_Some in H. destruct H as (H & Hmin).
    apply Hin in H. destruct H as (H1 & H2 & H3).
    repeat split; try assumption.
    intros other Ho Hp Hm. apply Hmin. apply Hin. auto.
Qed.
